(** * 10kvendors: real-time rooms, event routing and push fan-out

    A shallow embedding of the coordination logic of [server.js]:
    the socket handlers registered in [io.on('connection', ...)]
    ([joinAdmin], [joinUser], [categoryUpdate], [productUpdate],
    [orderStatusUpdate]) and the two push routes
    ([POST /api/push/subscribe], [POST /api/push/send]).

    Libraries the server calls (jsonwebtoken, mongoose models, web-push,
    socket.io) are not part of the program; they appear as an explicit
    environment ([Env]) or as the room directory that socket.io keeps. *)

From Stdlib Require Import List String Ascii ZArith Bool Lia Permutation.
From stdpp Require Import base option list strings pretty gmap sets.

#[local] Set Warnings "-register-all,-clear-no-such-hyp".
Local Open Scope string_scope.
Local Open Scope list_scope.

(** ** JavaScript values, as far as the handlers inspect them *)

Module Js.

(** Values that arrive as JSON (socket payloads, request bodies, token
    claims, documents).  A number is given by the text JavaScript prints
    for it ([String(n)]: [12], [-3], [0.5], [1e+21]), which tells two
    numbers apart except [0] and [-0], both printed [0]; the handlers
    only test numbers for truthiness, compare them, and print them. *)
Inductive jsval : Type :=
  | JUndefined
  | JNull
  | JBool (b : bool)
  | JNum (shown : string)
  | JStr (s : string)
  | JArr (items : list jsval)
  | JObj (fields : list (string * jsval)).

(** [if (v)], [!v], [a && b], [c ? x : y] *)
Definition truthy (v : jsval) : bool :=
  match v with
  | JUndefined | JNull => false
  | JBool b => b
  | JNum shown => negb (String.eqb shown "0") && negb (String.eqb shown "NaN")
  | JStr s => negb (String.eqb s "")
  | JArr _ | JObj _ => true
  end.

(** [typeof v] *)
Definition typeof (v : jsval) : string :=
  match v with
  | JUndefined => "undefined"
  | JNull | JArr _ | JObj _ => "object"
  | JBool _ => "boolean"
  | JNum _ => "number"
  | JStr _ => "string"
  end.

Fixpoint assoc (k : string) (fields : list (string * jsval)) : jsval :=
  match fields with
  | [] => JUndefined
  | (k', v) :: rest => if String.eqb k k' then v else assoc k rest
  end.

(** [v.k] for a [v] that is neither [null] nor [undefined], and for the
    property names the server reads ([_id], [id], [user], [token],
    [isAdmin], [name]): primitives and arrays have no such property. *)
Definition prop (k : string) (v : jsval) : jsval :=
  match v with
  | JObj fields => assoc k fields
  | _ => JUndefined
  end.

(** Conversion inside a template literal, [`${v}`]. *)
Fixpoint to_string (v : jsval) : string :=
  match v with
  | JUndefined => "undefined"
  | JNull => "null"
  | JBool true => "true"
  | JBool false => "false"
  | JNum shown => shown
  | JStr s => s
  | JArr items =>
      (fix join (l : list jsval) : string :=
         match l with
         | [] => ""
         | x :: rest =>
             let e := match x with
                      | JUndefined | JNull => ""
                      | _ => to_string x
                      end in
             match rest with
             | [] => e
             | _ :: _ => e +:+ "," +:+ join rest
             end
         end) items
  | JObj _ => "[object Object]"
  end.

(** [a === b] between two values that were produced by different
    requests: primitives compare by value, two objects are never the
    same object. *)
Definition strict_equal (a b : jsval) : bool :=
  match a, b with
  | JUndefined, JUndefined => true
  | JNull, JNull => true
  | JBool x, JBool y => Bool.eqb x y
  | JNum x, JNum y => String.eqb x y && negb (String.eqb x "NaN")
  | JStr x, JStr y => String.eqb x y
  | _, _ => false
  end.

(** [s.replace(pat, rep)] with a string pattern: only the first
    occurrence is replaced. *)
Fixpoint replace_first (pat rep s : string) : string :=
  if String.prefix pat s
  then rep +:+ String.substring (String.length pat) (String.length s - String.length pat) s
  else match s with
       | EmptyString => EmptyString
       | String c s' => String c (replace_first pat rep s')
       end.

End Js.
Import Js.

(** ** Exceptions and the handler monad *)

(** Outcome of an expression that may throw, or of an awaited promise
    that may reject; [message] is [error.message]. *)
Inductive result (A : Type) : Type :=
  | Ok (a : A)
  | Throw (message : string).
Arguments Ok {A} a.
Arguments Throw {A} message.

(** [v.k], which throws a [TypeError] on [null] and [undefined]. *)
Definition get (k : string) (v : jsval) : result jsval :=
  match v with
  | JUndefined =>
      Throw ("Cannot read properties of undefined (reading '" +:+ k +:+ "')")
  | JNull =>
      Throw ("Cannot read properties of null (reading '" +:+ k +:+ "')")
  | _ => Ok (prop k v)
  end.

(** socket.io identifies every connection by [socket.id]. *)
Abbreviation SocketId := string (only parsing).

(** The room directory socket.io keeps for the namespace: the connected
    sockets and, for each, the rooms it has joined.  (The room that
    socket.io names after the socket itself is left out: no handler
    addresses it.) *)
Abbreviation Directory := (gmap string (gset string)) (only parsing).

(** The sockets currently in [room]: the targets of [io.to(room)]. *)
Definition members (d : Directory) (room : string) : gset string :=
  dom (filter (λ kv : string * gset string, room ∈ kv.2) d).

(** What a handler does to the outside world. *)
Inductive Effect : Type :=
  | Log (args : list jsval)
  | Emit (room event : string) (args : list jsval) (to : gset string)
  | SendNotification (subscription : nat) (payload : string).

(** A handler threads the room directory, accumulates effects, and may
    end by throwing. *)
Definition M (A : Type) : Type :=
  Directory → result A * Directory * list Effect.

Definition ret {A} (a : A) : M A := λ d, (Ok a, d, []).

Definition bind {A B} (m : M A) (k : A → M B) : M B := λ d,
  match m d with
  | (Ok a, d', es) => let '(r, d'', es') := k a d' in (r, d'', es ++ es')
  | (Throw e, d', es) => (Throw e, d', es)
  end.

#[global] Instance M_ret : MRet M := @ret.
#[global] Instance M_bind : MBind M := λ A B k m, bind m k.

Definition lift {A} (r : result A) : M A := λ d, (r, d, []).

(** [try { body } catch (error) { handler(error.message) }] *)
Definition try_catch (body : M unit) (handler : string → M unit) : M unit := λ d,
  match body d with
  | (Throw e, d', es) => let '(r, d'', es') := handler e d' in (r, d'', es ++ es')
  | completed => completed
  end.

(** ** The environment of the server *)

Record Env : Type := {
  (** [process.env.NODE_ENV === 'production'] *)
  production : bool;
  (** [require('jsonwebtoken').verify(t, process.env.JWT_SECRET)] *)
  jwt_verify : string → result jsval;
  (** [await User.findById(id)]: a document, [null], or a rejection *)
  User_findById : jsval → result jsval;
  (** [await Order.findById(id).populate('user')] *)
  Order_findById : jsval → result jsval;
  (** [JSON.stringify(v)] *)
  JSON_stringify : jsval → string;
}.

Section Handlers.
Variable env : Env.

(** [const log = (...args) => { if (NODE_ENV !== 'production') console.log(...args) }] *)
Definition console (args : list jsval) : list Effect :=
  if production env then [] else [Log args].

Definition log (args : list jsval) : M unit := λ d, (Ok tt, d, console args).

(** [io.to(room).emit(event, ...args)] *)
Definition emit (room event : string) (args : list jsval) : M unit := λ d,
  (Ok tt, d, [Emit room event args (members d room)]).

(** [socket.join(room)] *)
Definition join (sid : SocketId) (room : string) : M unit := λ d,
  (Ok tt, alter (λ rooms, {[room]} ∪ rooms) sid d, []).

(** [socket.on('disconnect', () => log('Client disconnected:', socket.id))] *)
Definition on_disconnect (sid : SocketId) : M unit :=
  log [JStr "Client disconnected:"; JStr sid].

(** [socket.disconnect()]: socket.io takes the socket out of every room
    and out of the namespace, then fires its ['disconnect'] listener. *)
Definition disconnect (sid : SocketId) : M unit := λ d,
  match d !! sid with
  | Some _ => on_disconnect sid (delete sid d)
  | None => (Ok tt, d, [])
  end.

(** [token.replace('Bearer ', '')] *)
Definition token_replace (token : jsval) : result string :=
  match token with
  | JStr s => Ok (replace_first "Bearer " "" s)
  | JUndefined => Throw "Cannot read properties of undefined (reading 'replace')"
  | JNull => Throw "Cannot read properties of null (reading 'replace')"
  | _ => Throw "token.replace is not a function"
  end.

(** The first three statements of both join handlers:
    [decoded = verify(token.replace(..)); user = await User.findById(decoded.id)] *)
Definition lookup_principal (token : jsval) : result jsval :=
  match token_replace token with
  | Throw e => Throw e
  | Ok stripped =>
      match jwt_verify env stripped with
      | Throw e => Throw e
      | Ok decoded =>
          match get "id" decoded with
          | Throw e => Throw e
          | Ok id => User_findById env id
          end
      end
  end.

(** [socket.on('joinAdmin', async (token) => { ... })] *)
Definition joinAdmin (sid : SocketId) (token : jsval) : M unit :=
  try_catch
    (user ← lift (lookup_principal token);
     if truthy user && truthy (prop "isAdmin" user) then
       join sid "adminRoom";;
       log [JStr ("Admin " +:+ to_string (prop "name" user) +:+ " joined adminRoom")]
     else
       disconnect sid;;
       log [JStr "Unauthorized admin socket disconnected"])
    (λ message,
       log [JStr "Error in joinAdmin:"; JStr message];;
       disconnect sid).

(** The room of a user document: [`user_${user._id}`]. *)
Definition user_room (user : jsval) : string :=
  "user_" +:+ to_string (prop "_id" user).

(** [socket.on('joinUser', async ({ token }) => { ... })].  The parameter
    pattern is evaluated before the body: destructuring [undefined] or
    [null] throws outside the [try], and the handler's promise rejects. *)
Definition joinUser (sid : SocketId) (arg : jsval) : M unit :=
  token ← lift (get "token" arg);
  try_catch
    (user ← lift (lookup_principal token);
     if truthy user then
       join sid (user_room user);;
       log [JStr ("User " +:+ to_string (prop "name" user) +:+ " joined " +:+ user_room user)]
     else
       disconnect sid;;
       log [JStr "Unauthorized user socket disconnected"])
    (λ message,
       log [JStr "Error in joinUser:"; JStr message];;
       disconnect sid).

(** [socket.on('categoryUpdate', () => io.to('adminRoom').emit('categoryUpdate'))] *)
Definition categoryUpdate : M unit := emit "adminRoom" "categoryUpdate" [].

(** [socket.on('productUpdate', () => io.to('adminRoom').emit('productUpdate'))] *)
Definition productUpdate : M unit := emit "adminRoom" "productUpdate" [].

(** [!order || typeof order !== 'object' || !order._id] *)
Definition invalid_order (order : jsval) : bool :=
  negb (truthy order)
  || negb (String.eqb (typeof order) "object")
  || negb (truthy (prop "_id" order)).

(** [!order.user || !order.user._id] *)
Definition missing_user (order : jsval) : bool :=
  negb (truthy (prop "user" order))
  || negb (truthy (prop "_id" (prop "user" order))).

(** Lines 159-165: the two broadcasts. *)
Definition broadcast_order (populatedOrder : jsval) : M unit :=
  emit "adminRoom" "orderStatusUpdate" [populatedOrder];;
  if truthy (prop "user" populatedOrder)
     && truthy (prop "_id" (prop "user" populatedOrder))
  then emit (user_room (prop "user" populatedOrder)) "orderStatusUpdate" [populatedOrder]
  else log [JStr "No valid user ID for orderStatusUpdate:"; populatedOrder].

(** [socket.on('orderStatusUpdate', async (order) => { ... })] *)
Definition orderStatusUpdate (order : jsval) : M unit :=
  try_catch
    (if invalid_order order then
       log [JStr "Invalid order received in orderStatusUpdate event:"; order]
     else if missing_user order then
       log [JStr "Order missing user field, fetching from DB:"; prop "_id" order];;
       populatedOrder ← lift (Order_findById env (prop "_id" order));
       if negb (truthy populatedOrder) then
         log [JStr "Order not found in DB:"; prop "_id" order]
       else broadcast_order populatedOrder
     else broadcast_order order)
    (λ message, log [JStr "Error in orderStatusUpdate event:"; JStr message]).

End Handlers.

(** ** The connection loop *)

(** The events a client can send on its socket. *)
Inductive ClientEvent : Type :=
  | JoinAdmin (token : jsval)
  | JoinUser (arg : jsval)
  | CategoryUpdate
  | ProductUpdate
  | OrderStatusUpdate (order : jsval)
  | Disconnect.

(** The name of each event on the wire, as in [socket.on(name, ...)]. *)
Definition event_name (ev : ClientEvent) : string :=
  match ev with
  | JoinAdmin _ => "joinAdmin"
  | JoinUser _ => "joinUser"
  | CategoryUpdate => "categoryUpdate"
  | ProductUpdate => "productUpdate"
  | OrderStatusUpdate _ => "orderStatusUpdate"
  | Disconnect => "disconnect"
  end.

(** The listeners installed on a socket by [io.on('connection', ...)].
    A client-side disconnect is socket.io's own [disconnect]. *)
Definition listener (env : Env) (sid : SocketId) (ev : ClientEvent) : M unit :=
  match ev with
  | JoinAdmin token => joinAdmin env sid token
  | JoinUser arg => joinUser env sid arg
  | CategoryUpdate => categoryUpdate
  | ProductUpdate => productUpdate
  | OrderStatusUpdate order => orderStatusUpdate env order
  | Disconnect => disconnect env sid
  end.

(** [io.on('connection', (socket) => { log(...); socket.on(...) ... })] *)
Definition connection (env : Env) (sid : SocketId) : M unit := λ d,
  match d !! sid with
  | Some _ => (Ok tt, d, [])
  | None => log env [JStr "WebSocket client connected:"; JStr sid] (<[sid := ∅]> d)
  end.

Inductive Input : Type :=
  | Connect (sid : SocketId)
  | FromClient (sid : SocketId) (ev : ClientEvent).

(** A listener whose promise rejects has nobody to catch the rejection
    (the listeners are [async] functions called by the event emitter):
    Node ends the process on the unhandled rejection, and with the
    process go every connection and every room. *)
Definition unhandled (r : result unit * Directory * list Effect)
    : result unit * Directory * list Effect :=
  match r with
  | (Throw message, _, es) => (Throw message, ∅, es)
  | settled => settled
  end.

(** One turn of the server.  socket.io delivers a client event to the
    listeners only while the socket is connected.  A listener runs to
    completion within its turn: what it awaits is answered by the
    environment of the turn.  The environment is an argument of the
    turn: tokens expire and documents change between turns. *)
Definition step (env : Env) (i : Input) : M unit := λ d,
  match i with
  | Connect sid => connection env sid d
  | FromClient sid ev =>
      match d !! sid with
      | Some _ => unhandled (listener env sid ev d)
      | None => (Ok tt, d, [])
      end
  end.

(** The directory after a step, and what the step did. *)
Definition dir_of {A} (r : result A * Directory * list Effect) : Directory := r.1.2.
Definition effects_of {A} (r : result A * Directory * list Effect) : list Effect := r.2.

(** A run of the server from a directory: the turns in order.  After a
    turn that ended the process the run goes on from the empty
    directory, as on a server that has been started again. *)
Fixpoint run (turns : list (Env * Input)) (d : Directory) : Directory :=
  match turns with
  | [] => d
  | (env, i) :: rest => run rest (dir_of (step env i d))
  end.

(** Rooms of a session; a disconnected session has none. *)
Definition rooms_of (d : Directory) (sid : SocketId) : gset string :=
  default ∅ (d !! sid).

Definition connected (d : Directory) (sid : SocketId) : Prop :=
  is_Some (d !! sid).

(** Session [sid] receives [event] with arguments [args]. *)
Definition receives (es : list Effect) (sid : SocketId)
    (event : string) (args : list jsval) : Prop :=
  ∃ room to, Emit room event args to ∈ es ∧ sid ∈ to.

(** [room] is one of the [user_<id>] rooms. *)
Definition is_user_room (room : string) : bool := String.prefix "user_" room.

(** ** Push notifications *)

(** [let pushSubscriptions = []]: an array of [{ userId, subscription }].
    [subscription] is the request body of the subscribe call, an object;
    what the server does with it depends on its identity only, so it is
    represented by its reference. *)
Record PushSub : Type := {
  userId : jsval;
  subscription : nat;
}.

(** The module-level state of the push routes: the array, and the next
    reference the runtime hands out for a request body. *)
Record Registry : Type := {
  pushSubscriptions : list PushSub;
  next_ref : nat;
}.

Record Response : Type := {
  status : nat;
  json : jsval;
}.

(** How the promise of [webPush.sendNotification] settles.  A rejection
    is permanent when the push service reports the endpoint as gone, and
    transient otherwise (timeouts, throttling, server errors); the kind
    reaches the server inside the error object, of which the callback
    reads [message] only. *)
Inductive Failure : Type := PermanentFailure | TransientFailure.

Inductive Outcome : Type :=
  | Fulfilled
  | Rejected (kind : Failure) (message : string).

Definition rejected (o : Outcome) : bool :=
  match o with Fulfilled => false | Rejected _ _ => true end.

Section PushRoutes.
Variable env : Env.

(** [POST /api/push/subscribe], after [auth] has set [req.user]:
    [user_id] is [req.user.id]. *)
Definition push_subscribe (user_id : jsval) (st : Registry)
    : Response * Registry * list Effect :=
  let subscription := next_ref st in
  ({| status := 201; json := JObj [("message", JStr "Subscription saved")] |},
   {| pushSubscriptions :=
        pushSubscriptions st ++ [{| userId := user_id; subscription := subscription |}];
      next_ref := S (next_ref st) |},
   console env [JStr ("Push subscription saved for user " +:+ to_string user_id)]).

(** The body of a send request, [const { title, body, url, userId } = req.body]. *)
Record SendBody : Type := {
  b_title : jsval;
  b_body : jsval;
  b_url : jsval;
  b_userId : jsval;
}.

(** [userId ? pushSubscriptions.filter(sub => sub.userId === userId) : pushSubscriptions] *)
Definition targetSubscriptions (subs : list PushSub) (uid : jsval) : list PushSub :=
  if truthy uid
  then List.filter (λ sub, strict_equal (userId sub) uid) subs
  else subs.

(** [pushSubscriptions.filter(sub => sub.subscription !== subscription)] *)
Definition without (target : nat) (subs : list PushSub) : list PushSub :=
  List.filter (λ sub, negb (Nat.eqb (subscription sub) target)) subs.

(** The [.catch(error => { ... })] callback of one delivery. *)
Definition on_rejected (target : nat) (message : string) (subs : list PushSub)
    : list PushSub * list Effect :=
  (without target subs,
   console env [JStr ("Failed to send push notification: " +:+ message)]).

(** The deliveries settle in some order [completion] (indices into the
    target array); the callback of a rejected one runs when it settles,
    on the array as it is then. *)
Fixpoint settle (outcomes : nat → Outcome) (targets : list PushSub)
    (completion : list nat) (subs : list PushSub) : list PushSub * list Effect :=
  match completion with
  | [] => (subs, [])
  | i :: rest =>
      match targets !! i, outcomes i with
      | Some t, Rejected _ message =>
          let '(subs', es) := on_rejected (subscription t) message subs in
          let '(subs'', es') := settle outcomes targets rest subs' in
          (subs'', es ++ es')
      | _, _ => settle outcomes targets rest subs
      end
  end.

(** [POST /api/push/send].  [outcomes i] is how the [i]-th call of
    [sendNotification] settles.  Nothing in the [try] block throws on a
    parsed body, so the 500 branch is never taken. *)
Definition push_send (outcomes : nat → Outcome) (completion : list nat)
    (req : SendBody) (st : Registry) : Response * Registry * list Effect :=
  let payload :=
    JSON_stringify env
      (JObj [("title", b_title req); ("body", b_body req); ("url", b_url req)]) in
  let targets := targetSubscriptions (pushSubscriptions st) (b_userId req) in
  if Nat.eqb (length targets) 0 then
    ({| status := 404; json := JObj [("error", JStr "No subscriptions found")] |},
     st, [])
  else
    let calls := (λ t, SendNotification (subscription t) payload) <$> targets in
    let '(subs, es) := settle outcomes targets completion (pushSubscriptions st) in
    ({| status := 200; json := JObj [("message", JStr "Notifications sent")] |},
     {| pushSubscriptions := subs; next_ref := next_ref st |},
     calls ++ es
       ++ console env [JStr ("Sent push notifications to "
                             +:+ pretty (length targets) +:+ " users")]).

(** The delivery attempts among the effects of a request. *)
Definition attempts (es : list Effect) : list nat :=
  omap (λ e, match e with SendNotification s _ => Some s | _ => None end) es.

End PushRoutes.

(** A valid completion order settles each delivery exactly once. *)
Definition completes (completion : list nat) (targets : list PushSub) : Prop :=
  Permutation completion (seq 0 (length targets)).

(** Requests to the push routes, and the registries they lead to. *)
Inductive PushRequest : Type :=
  | Subscribe (user_id : jsval)
  | Send (outcomes : nat → Outcome) (completion : list nat) (req : SendBody).

Definition push_step (env : Env) (r : PushRequest) (st : Registry)
    : Response * Registry * list Effect :=
  match r with
  | Subscribe user_id => push_subscribe env user_id st
  | Send outcomes completion req => push_send env outcomes completion req st
  end.

Fixpoint push_run (env : Env) (rs : list PushRequest) (st : Registry) : Registry :=
  match rs with
  | [] => st
  | r :: rest => push_run env rest (push_step env r st).1.2
  end.

Definition empty_registry : Registry := {| pushSubscriptions := []; next_ref := 0 |}.

(** The descriptors whose rejection callback runs, in completion order. *)
Definition failed_descriptors (outcomes : nat → Outcome) (targets : list PushSub)
    (completion : list nat) : list nat :=
  omap (λ i, match targets !! i with
             | Some t => if rejected (outcomes i) then Some (subscription t) else None
             | None => None
             end) completion.

(** Every reference in the array was handed out earlier, and to one
    entry only. *)
Definition distinct_descriptors (st : Registry) : Prop :=
  NoDup (subscription <$> pushSubscriptions st)
  ∧ ∀ sub, sub ∈ pushSubscriptions st → subscription sub < next_ref st.

(** The first half of claim C1 as the specification words it: a selected
    registration disappears exactly when its delivery is rejected as
    permanently invalid. *)
Definition permanently_rejected (o : Outcome) : Prop :=
  ∃ message, o = Rejected PermanentFailure message.

Definition removed_iff_permanent (env : Env) (outcomes : nat → Outcome)
    (completion : list nat) (req : SendBody) (st : Registry) : Prop :=
  ∀ i t,
    targetSubscriptions (pushSubscriptions st) (b_userId req) !! i = Some t →
    t ∉ pushSubscriptions (push_send env outcomes completion req st).1.2
    ↔ permanently_rejected (outcomes i).

(** ** Credential verification, as the join handlers decide it *)

(** [joinUser] joins exactly when the lookup yields a document. *)
Definition user_verified (env : Env) (token : jsval) : bool :=
  match lookup_principal env token with
  | Ok user => truthy user
  | Throw _ => false
  end.

(** [joinAdmin] joins exactly when the document also has [isAdmin]. *)
Definition admin_verified (env : Env) (token : jsval) : bool :=
  match lookup_principal env token with
  | Ok user => truthy user && truthy (prop "isAdmin" user)
  | Throw _ => false
  end.

(** The ways a credential can fail, in the words of the specification. *)
Inductive verification_failure (env : Env) (token : jsval) : Prop :=
  | malformed_token message :
      token_replace token = Throw message →
      verification_failure env token
  | rejected_signature stripped message :
      token_replace token = Ok stripped →
      jwt_verify env stripped = Throw message →
      verification_failure env token
  | lookup_error message :
      lookup_principal env token = Throw message →
      verification_failure env token
  | unknown_principal user :
      lookup_principal env token = Ok user →
      truthy user = false →
      verification_failure env token.

Inductive admin_failure (env : Env) (token : jsval) : Prop :=
  | not_verified :
      verification_failure env token → admin_failure env token
  | missing_admin_rights user :
      lookup_principal env token = Ok user →
      truthy (prop "isAdmin" user) = false →
      admin_failure env token.

(** A join event of a session whose credential fails verification.  For
    [joinUser] the credential is the [token] property of the payload. *)
Definition join_fails (env : Env) (ev : ClientEvent) : Prop :=
  match ev with
  | JoinAdmin token => admin_failure env token
  | JoinUser arg => ∃ token, get "token" arg = Ok token ∧ verification_failure env token
  | _ => False
  end.

(** What entitles a session to a room: a join event it sent during the
    run, with a credential that verified at that turn. *)
Definition admin_grant (turns : list (Env * Input)) (sid : SocketId) : Prop :=
  ∃ env token user,
    (env, FromClient sid (JoinAdmin token)) ∈ turns
    ∧ lookup_principal env token = Ok user
    ∧ truthy user = true
    ∧ truthy (prop "isAdmin" user) = true.

Definition user_grant (turns : list (Env * Input)) (sid : SocketId)
    (room : string) : Prop :=
  ∃ env arg token user,
    (env, FromClient sid (JoinUser arg)) ∈ turns
    ∧ get "token" arg = Ok token
    ∧ lookup_principal env token = Ok user
    ∧ truthy user = true
    ∧ room = user_room user.

Definition granted (turns : list (Env * Input)) (sid : SocketId)
    (room : string) : Prop :=
  (room = "adminRoom" ∧ admin_grant turns sid)
  ∨ (room ≠ "adminRoom" ∧ user_grant turns sid room).

(** The first half of claim C2 as the specification words it. *)
Definition at_most_one_user_room (d : Directory) (sid : SocketId) : Prop :=
  ∀ r1 r2, r1 ∈ rooms_of d sid → r2 ∈ rooms_of d sid →
           is_user_room r1 = true → is_user_room r2 = true → r1 = r2.

(** ** The order an [orderStatusUpdate] event ends up broadcasting *)

(** Lines 149-157: the order of the event when it carries a user with an
    id, else the order fetched by id, if there is one. *)
Definition resolve_order (env : Env) (order : jsval) : option jsval :=
  if missing_user order then
    match Order_findById env (prop "_id" order) with
    | Ok populatedOrder => if truthy populatedOrder then Some populatedOrder else None
    | Throw _ => None
    end
  else Some order.

(** [populatedOrder.user && populatedOrder.user._id] *)
Definition has_owner (populatedOrder : jsval) : bool :=
  truthy (prop "user" populatedOrder)
  && truthy (prop "_id" (prop "user" populatedOrder)).

(** The broadcasts among the effects of a handler. *)
Definition emissions (es : list Effect) : list Effect :=
  List.filter (λ e, match e with Emit _ _ _ _ => true | _ => false end) es.


(** ** The broadcasts of a turn *)

(** The broadcasts of an [orderStatusUpdate] turn, for every argument. *)
Definition order_broadcasts (env : Env) (order : jsval)
    (d : gmap string (gset string)) : list Effect :=
  if invalid_order order then []
  else match resolve_order env order with
       | Some populatedOrder =>
           Emit "adminRoom" "orderStatusUpdate" [populatedOrder] (members d "adminRoom")
           :: if has_owner populatedOrder
              then [Emit (user_room (prop "user" populatedOrder)) "orderStatusUpdate"
                      [populatedOrder]
                      (members d (user_room (prop "user" populatedOrder)))]
              else []
       | None => []
       end.

(** The broadcasts of a turn: one event to [adminRoom] for the two
    catalog signals, those of the order for [orderStatusUpdate], and
    none otherwise. *)
Inductive turn_broadcasts (env : Env) (d : gmap string (gset string))
    : Input → list Effect → Prop :=
  | tb_catalog sid ev :
      connected d sid → ev = CategoryUpdate ∨ ev = ProductUpdate →
      turn_broadcasts env d (FromClient sid ev)
        [Emit "adminRoom" (event_name ev) [] (members d "adminRoom")]
  | tb_order sid order :
      connected d sid →
      turn_broadcasts env d (FromClient sid (OrderStatusUpdate order))
        (order_broadcasts env order d)
  | tb_none i : turn_broadcasts env d i [].

(** ** The visitor middleware of the HTTP server *)

(** The session an input belongs to. *)
Definition sender (i : Input) : SocketId :=
  match i with
  | Connect sid => sid
  | FromClient sid _ => sid
  end.

(** [app.use(async (req, res, next) => { ... })], lines 177-188.
    [latest] is what
    [await VisitorLocation.findOne().sort({ timestamp: -1 }).lean()]
    settles to.  The result is the number of calls of [next] and the
    effects. *)
Definition newVisitor (env : Env) (originalUrl : string) (latest : result jsval)
    (d : Directory) : nat * list Effect :=
  if String.prefix "/api/locations" originalUrl then (1, [])
  else
    (1,
     match latest with
     | Ok visitor =>
         if truthy visitor
         then [Emit "adminRoom" "newVisitor" [visitor] (members d "adminRoom")]
         else []
     | Throw message =>
         console env [JStr "Error fetching visitor location:"; JStr message]
     end).

(** The console lines among the effects of a turn. *)
Definition logs (es : list Effect) : list Effect :=
  List.filter (λ e, match e with Log _ => true | _ => false end) es.

(** ** The service worker *)

Module Sw.

Definition CACHE_NAME : string := "10kvendor-cache-v1".
Definition DYNAMIC_CACHE_NAME : string := "10kvendor-dynamic-v1".

Definition urlsToCache : list string :=
  ["/"; "/index.html"; "static/logo.png"].

Definition optionalUrlsToCache : list string :=
  ["https://cdn.tailwindcss.com";
   "https://cdn.jsdelivr.net/npm/feather-icons/dist/feather.min.js";
   "https://cdn.jsdelivr.net/npm/animejs/lib/anime.iife.min.js";
   "https://fonts.googleapis.com/css2?family=Poppins:wght@400;500;600;700&display=swap"].

(** A [Response], as far as the worker builds or inspects one. *)
Record Response : Type := {
  status : nat;
  statusText : string;
  headers : list (string * string);
  body : string;
}.

(** [response.ok]: the status is in the range 200-299. *)
Definition ok (r : Response) : bool :=
  (200 <=? status r)%nat && (status r <=? 299)%nat.

(** [event.request], as far as the fetch listener reads it;
    [pathname] is [new URL(event.request.url).pathname]. *)
Record Request : Type := {
  url : string;
  pathname : string;
  mode : string;
}.

(** [s.includes(needle)] *)
Fixpoint includes (needle s : string) : bool :=
  if String.prefix needle s then true
  else match s with
       | EmptyString => false
       | String _ rest => includes needle rest
       end.

(** [a || b] *)
Definition js_or (a b : jsval) : jsval := if truthy a then a else b.

(** What the worker asks of the browser. *)
Inductive Effect : Type :=
  | ConsoleLog (line : string)
  | ConsoleWarn (line : string)
  | ConsoleError (line : string)
  | SkipWaiting
  | ClientsClaim
  | CacheAddAll (cache : string) (urls : list string)
  | CachePut (cache : string) (key : string) (r : Response)
  | CacheDelete (name : string)
  | CachesMatch (key : string)
  | Fetch (target : string)
  | ShowNotification (title : jsval) (body : jsval) (data_url : jsval)
  | CloseNotification
  | Focus (client : nat)
  | OpenWindow (target : jsval).

(** [self.addEventListener('install', ...)].  [addAll] is how
    [cache.addAll(urlsToCache)] settles, [network url] how [fetch(url)]
    settles for an optional resource.  The result is how the promise
    given to [event.waitUntil] settles: the optional fetches are started,
    not awaited. *)
Definition optional_fetch (network : string → result Response) (target : string)
    : list Effect :=
  Fetch target ::
  match network target with
  | Ok response =>
      if ok response
      then [CachePut CACHE_NAME target response]
      else [ConsoleWarn ("Optional resource failed: " +:+ target)]
  | Throw _ => [ConsoleWarn ("Failed to cache optional: " +:+ target)]
  end.

Definition on_install (addAll : result unit) (network : string → result Response)
    : result unit * list Effect :=
  let start := [SkipWaiting; ConsoleLog "Caching core assets...";
                CacheAddAll CACHE_NAME urlsToCache] in
  match addAll with
  | Throw message =>
      (Throw message, start ++ [ConsoleError "Failed to cache core assets:"])
  | Ok _ =>
      (Ok tt, start ++ flat_map (optional_fetch network) optionalUrlsToCache)
  end.

(** [self.addEventListener('activate', ...)]; [cacheNames] is what
    [caches.keys()] resolves to. *)
Definition stale (name : string) : bool :=
  negb (String.eqb name CACHE_NAME) && negb (String.eqb name DYNAMIC_CACHE_NAME).

Definition on_activate (cacheNames : list string) : list Effect :=
  ClientsClaim :: (CacheDelete <$> List.filter stale cacheNames).

(** The names [caches.keys()] lists once the deletions among [es] are
    done. *)
Definition caches_after (cacheNames : list string) (es : list Effect) : list string :=
  foldl (λ names e,
           match e with
           | CacheDelete name => List.filter (λ n, negb (String.eqb n name)) names
           | _ => names
           end) cacheNames es.

(** The body of the answer the worker makes up when an API request can
    neither reach the network nor be found in a cache. *)
Definition offline_response (stringify : jsval → string) : Response := {|
  status := 503;
  statusText := "Service Unavailable";
  headers := [("Content-Type", "application/json")];
  body := stringify (JObj [("error", JStr "Offline: Unable to fetch data")]);
|}.

(** [self.addEventListener('fetch', ...)].  [network] is how
    [fetch(event.request)] settles, [cached] what
    [caches.match(event.request)] resolves to and [index] what
    [caches.match('/index.html')] resolves to, each used only where the
    listener asks for it.  The result is what [event.respondWith]
    receives; [None] is [undefined]. *)
Definition on_fetch (stringify : jsval → string) (request : Request)
    (network : result Response) (cached index : option Response)
    : option Response * list Effect :=
  if String.prefix "/api/public/" (pathname request) then
    match network with
    | Ok networkResponse =>
        (Some networkResponse,
         Fetch (url request) ::
         if ok networkResponse
         then [CachePut DYNAMIC_CACHE_NAME (url request) networkResponse]
         else [])
    | Throw _ =>
        (Some (match cached with
               | Some cachedResponse => cachedResponse
               | None => offline_response stringify
               end),
         [Fetch (url request); CachesMatch (url request)])
    end
  else
    match cached with
    | Some response => (Some response, [CachesMatch (url request)])
    | None =>
        match network with
        | Ok response =>
            (Some response, [CachesMatch (url request); Fetch (url request)])
        | Throw _ =>
            if String.eqb (mode request) "navigate"
            then (index, [CachesMatch (url request); Fetch (url request);
                          CachesMatch "/index.html"])
            else (None, [CachesMatch (url request); Fetch (url request)])
        end
    end.

(** The [data] a push event starts from. *)
Definition default_data : jsval :=
  JObj [("title", JStr "10kVendor");
        ("body", JStr "New update available!");
        ("url", JStr "/orders.html")].

(** [self.addEventListener('push', ...)].  [event_data] is [None] when
    [event.data] is [null], else how [event.data.json()] ends.  The
    result is the call of [showNotification], or the exception the
    listener ends with. *)
Definition on_push (event_data : option (result jsval)) : result Effect :=
  match (match event_data with
         | None => Ok default_data
         | Some parsed => parsed
         end) with
  | Throw message => Throw message
  | Ok data =>
      match get "body" data with
      | Throw message => Throw message
      | Ok body =>
          Ok (ShowNotification (prop "title" data) body
                (js_or (prop "url" data) (JStr "/orders.html")))
      end
  end.

(** A window among [clients.matchAll(...)]; [focusable] is
    ['focus' in client]. *)
Record WindowClient : Type := {
  client_url : string;
  focusable : bool;
}.

(** [client.url.includes('orders.html') && 'focus' in client] *)
Definition shows_orders (client : WindowClient) : bool :=
  includes "orders.html" (client_url client) && focusable client.

(** The [for] loop of the click listener, from index [i]. *)
Fixpoint first_orders_window (clientsArr : list WindowClient) (i : nat) : option nat :=
  match clientsArr with
  | [] => None
  | client :: rest =>
      if shows_orders client then Some i else first_orders_window rest (S i)
  end.

(** [self.addEventListener('notificationclick', ...)].  [data_url] is
    [event.notification.data.url], [openWindow] whether
    [clients.openWindow] exists. *)
Definition on_notificationclick (data_url : jsval) (clientsArr : list WindowClient)
    (openWindow : bool) : list Effect :=
  let target := js_or data_url (JStr "/orders.html") in
  CloseNotification ::
  match first_orders_window clientsArr 0 with
  | Some i => [Focus i]
  | None => if openWindow then [OpenWindow target] else []
  end.

End Sw.

(** ** A small deployment to run the handlers on *)

Definition demo_user (id name : string) (admin : bool) : jsval :=
  JObj [("_id", JStr id); ("name", JStr name); ("isAdmin", JBool admin)].

Definition demo_env : Env := {|
  production := false;
  jwt_verify := λ t,
    if String.eqb t "tokA" then Ok (JObj [("id", JStr "a1")])
    else if String.eqb t "tokB" then Ok (JObj [("id", JStr "b2")])
    else if String.eqb t "tokRoot" then Ok (JObj [("id", JStr "r0")])
    else Throw "jwt malformed";
  User_findById := λ id,
    match id with
    | JStr "a1" => Ok (demo_user "a1" "Ada" false)
    | JStr "b2" => Ok (demo_user "b2" "Bob" false)
    | JStr "r0" => Ok (demo_user "r0" "Root" true)
    | _ => Ok JNull
    end;
  Order_findById := λ id,
    match id with
    | JStr "o2" => Ok (JObj [("_id", JStr "o2"); ("user", demo_user "b2" "Bob" false)])
    | JStr "o3" => Ok (JObj [("_id", JStr "o3"); ("user", JNull)])
    | JStr "o5" => Throw "Cast to ObjectId failed"
    | _ => Ok JNull
    end;
  JSON_stringify := to_string;
|}.

Definition demo_body (uid : jsval) : SendBody := {|
  b_title := JStr "Shipped";
  b_body := JStr "Your order shipped";
  b_url := JStr "/orders.html";
  b_userId := uid;
|}.

(** A session that joins as two different users. *)
Definition two_principals : list (Env * Input) :=
  [ (demo_env, Connect "s1");
    (demo_env, FromClient "s1" (JoinUser (JObj [("token", JStr "Bearer tokA")])));
    (demo_env, FromClient "s1" (JoinUser (JObj [("token", JStr "Bearer tokB")]))) ].

(** * Properties *)

(** ** JavaScript helpers on examples *)

Example replace_first_bearer :
  replace_first "Bearer " "" "Bearer abc.def" = "abc.def".
Proof. reflexivity. Qed.

Example replace_first_inner :
  replace_first "Bearer " "" "xBearer Bearer y" = "xBearer y".
Proof. reflexivity. Qed.

Example user_room_large_number :
  user_room (JObj [("_id", JNum "1e+21")]) = "user_1e+21".
Proof. reflexivity. Qed.

Example to_string_arr :
  to_string (JArr [JStr "a"; JNull; JNum "12"; JArr [JNum "1e+21"; JBool true]])
  = "a,,12,1e+21,true".
Proof. vm_compute. reflexivity. Qed.

(** ** The push registry *)

Section PushFacts.
Context (env : Env).

Lemma without_spec target subs sub :
  sub ∈ without target subs ↔ sub ∈ subs ∧ subscription sub ≠ target.
Proof.
  unfold without. rewrite !list_elem_of_In, filter_In, negb_true_iff, Nat.eqb_neq.
  reflexivity.
Qed.

Lemma without_comm a b subs :
  without a (without b subs) = without b (without a subs).
Proof.
  unfold without. induction subs as [|s subs IH]; simpl; [done|].
  destruct (Nat.eqb (subscription s) b) eqn:Hb,
           (Nat.eqb (subscription s) a) eqn:Ha; simpl;
    rewrite ?Ha, ?Hb; simpl; by rewrite ?IH.
Qed.

Lemma without_sublist target subs : without target subs `sublist_of` subs.
Proof.
  unfold without. induction subs as [|s subs IH]; simpl; [constructor|].
  destruct (negb _); by constructor.
Qed.

(** The array after the callbacks is the array without the failed
    descriptors, whatever the order in which they ran. *)
Lemma settle_subs outcomes targets completion subs :
  (settle env outcomes targets completion subs).1
  = foldr without subs (failed_descriptors outcomes targets completion).
Proof.
  revert subs. induction completion as [|i rest IH]; intros subs; simpl; [done|].
  unfold failed_descriptors in *. simpl.
  destruct (targets !! i) as [t|] eqn:Ht; [|apply IH].
  destruct (outcomes i) as [|kind message]; simpl; [apply IH|].
  specialize (IH (without (subscription t) subs)).
  destruct (settle env outcomes targets rest _) as [subs'' es'] eqn:Hs.
  simpl in *. rewrite IH. clear.
  induction (omap _ rest) as [|d ds IHd]; simpl; [done|].
  by rewrite IHd, without_comm.
Qed.

Lemma elem_of_foldr_without ds subs sub :
  sub ∈ foldr without subs ds ↔ sub ∈ subs ∧ subscription sub ∉ ds.
Proof.
  induction ds as [|d ds IH]; simpl.
  - split; [intros H; split; [done|apply not_elem_of_nil]|by intros [H _]].
  - rewrite without_spec, IH, not_elem_of_cons. tauto.
Qed.

Lemma foldr_without_sublist ds subs : foldr without subs ds `sublist_of` subs.
Proof.
  induction ds as [|d ds IH]; simpl; [done|].
  etransitivity; [apply without_sublist|done].
Qed.

Lemma elem_of_failed_descriptors outcomes targets completion d :
  d ∈ failed_descriptors outcomes targets completion
  ↔ ∃ i t, i ∈ completion ∧ targets !! i = Some t
           ∧ rejected (outcomes i) = true ∧ subscription t = d.
Proof.
  unfold failed_descriptors. rewrite list_elem_of_omap. split.
  - intros (i & Hi & Hd). destruct (targets !! i) as [t|] eqn:Ht; [|done].
    destruct (rejected (outcomes i)) eqn:Hr; [|done].
    exists i, t. naive_solver.
  - intros (i & t & Hi & Ht & Hr & <-). exists i. by rewrite Ht, Hr.
Qed.

(** The callbacks of one request commute: two completion orders that
    settle the same deliveries leave the same array. *)
Lemma settle_order_irrelevant outcomes targets c1 c2 subs :
  c1 ≡ₚ c2 →
  (settle env outcomes targets c1 subs).1 = (settle env outcomes targets c2 subs).1.
Proof.
  intros Hp. rewrite !settle_subs.
  apply (foldr_permutation_proper (=) without subs); [apply without_comm|].
  unfold failed_descriptors. by rewrite Hp.
Qed.

Lemma completes_elem_of completion targets i :
  completes completion targets →
  i ∈ completion ↔ i < length targets.
Proof.
  intros Hp. unfold completes in Hp. rewrite Hp, list_elem_of_In, in_seq. lia.
Qed.

(** Who is still registered after a send that found targets. *)
Lemma settle_elem_of outcomes targets completion subs sub :
  completes completion targets →
  sub ∈ (settle env outcomes targets completion subs).1
  ↔ sub ∈ subs
    ∧ ∀ i t, targets !! i = Some t → subscription t = subscription sub →
             outcomes i = Fulfilled.
Proof.
  intros Hc. rewrite settle_subs, elem_of_foldr_without.
  rewrite elem_of_failed_descriptors. split.
  - intros [Hin Hno]. split; [done|]. intros i t Ht Heq.
    destruct (outcomes i) as [|kind message] eqn:Ho; [done|].
    exfalso. apply Hno. exists i, t. rewrite Ho. split_and!; try done.
    apply (completes_elem_of _ _ _ Hc). by eapply lookup_lt_Some.
  - intros [Hin Hall]. split; [done|]. intros (i & t & _ & Ht & Hr & Heq).
    rewrite (Hall i t Ht Heq) in Hr. done.
Qed.

(** The selection is empty when a user id is given and nobody registered
    under it, or when none is given and nobody registered at all. *)
Lemma targetSubscriptions_nil subs uid :
  targetSubscriptions subs uid = []
  ↔ if truthy uid
    then ∀ sub, sub ∈ subs → strict_equal (userId sub) uid = false
    else subs = [].
Proof.
  unfold targetSubscriptions. destruct (truthy uid); [|done].
  induction subs as [|s subs IH]; simpl.
  - split; [|done]. by intros _ sub ?%not_elem_of_nil.
  - destruct (strict_equal (userId s) uid) eqn:Hs.
    + split; [done|]. intros Hall.
      rewrite (Hall s) in Hs; [done|by left].
    + rewrite IH. split.
      * intros Hall sub [->|?]%elem_of_cons; auto.
      * intros Hall sub ?. apply Hall. by right.
Qed.

Lemma targetSubscriptions_sublist subs uid :
  targetSubscriptions subs uid `sublist_of` subs.
Proof.
  unfold targetSubscriptions. destruct (truthy uid); [|done].
  induction subs as [|s subs IH]; simpl; [constructor|].
  destruct (strict_equal _ _); by constructor.
Qed.

End PushFacts.

(** *** Descriptors stay distinct *)

Lemma push_subscribe_distinct env user_id st :
  distinct_descriptors st →
  distinct_descriptors (push_subscribe env user_id st).1.2.
Proof.
  intros [Hnd Hlt]. unfold distinct_descriptors, push_subscribe. simpl. split.
  - rewrite fmap_app. apply NoDup_app. split_and!; [done| |apply NoDup_singleton].
    intros d (sub & -> & Hsub)%list_elem_of_fmap Hd. simpl in Hd.
    apply list_elem_of_singleton in Hd. apply Hlt in Hsub. lia.
  - intros sub [Hsub|Hsub]%elem_of_app.
    + apply Hlt in Hsub. lia.
    + apply list_elem_of_singleton in Hsub. subst. simpl. lia.
Qed.

Lemma push_send_sublist env outcomes completion req st :
  pushSubscriptions (push_send env outcomes completion req st).1.2
    `sublist_of` pushSubscriptions st.
Proof.
  unfold push_send. destruct (Nat.eqb _ 0); [done|].
  pose proof (settle_subs env outcomes
    (targetSubscriptions (pushSubscriptions st) (b_userId req))
    completion (pushSubscriptions st)) as Hs.
  destruct (settle _ _ _ _ _) as [subs es]. simpl in *. subst subs.
  apply foldr_without_sublist.
Qed.

Lemma push_send_next_ref env outcomes completion req st :
  next_ref (push_send env outcomes completion req st).1.2 = next_ref st.
Proof.
  unfold push_send. destruct (Nat.eqb _ 0); [done|].
  by destruct (settle _ _ _ _ _).
Qed.

Lemma push_send_distinct env outcomes completion req st :
  distinct_descriptors st →
  distinct_descriptors (push_send env outcomes completion req st).1.2.
Proof.
  intros [Hnd Hlt]. pose proof (push_send_sublist env outcomes completion req st) as Hsub.
  split.
  - eapply sublist_NoDup; [exact Hnd|]. by apply fmap_sublist.
  - intros sub Hin. rewrite push_send_next_ref. apply Hlt.
    by eapply elem_of_sublist.
Qed.

(** Every registry the routes can produce has pairwise distinct
    descriptors: each subscribe call stores its own request body. *)
Lemma push_run_distinct env rs st :
  distinct_descriptors st → distinct_descriptors (push_run env rs st).
Proof.
  revert st. induction rs as [|r rs IH]; intros st Hst; simpl; [done|].
  apply IH. destruct r as [user_id|outcomes completion req].
  - by apply (push_subscribe_distinct env).
  - by apply (push_send_distinct env).
Qed.

Lemma empty_registry_distinct : distinct_descriptors empty_registry.
Proof. split; [constructor|]. intros sub Hsub. by apply not_elem_of_nil in Hsub. Qed.

Lemma push_send_found env outcomes completion req st :
  targetSubscriptions (pushSubscriptions st) (b_userId req) ≠ [] →
  push_send env outcomes completion req st
  = let targets := targetSubscriptions (pushSubscriptions st) (b_userId req) in
    let payload := JSON_stringify env
      (JObj [("title", b_title req); ("body", b_body req); ("url", b_url req)]) in
    let s := settle env outcomes targets completion (pushSubscriptions st) in
    ({| status := 200; json := JObj [("message", JStr "Notifications sent")] |},
     {| pushSubscriptions := s.1; next_ref := next_ref st |},
     ((λ t, SendNotification (subscription t) payload) <$> targets) ++ s.2
       ++ console env [JStr ("Sent push notifications to "
                             +:+ pretty (length targets) +:+ " users")]).
Proof.
  intros Hne. unfold push_send.
  destruct (targetSubscriptions _ _) as [|t ts] eqn:Ht; [done|]. simpl.
  by destruct (settle _ _ _ _ _).
Qed.

Lemma attempts_calls payload (targets : list PushSub) :
  attempts ((λ t, SendNotification (subscription t) payload) <$> targets)
  = subscription <$> targets.
Proof.
  unfold attempts. induction targets as [|t ts IH]; [done|].
  rewrite !fmap_cons. simpl. f_equal. exact IH.
Qed.

Lemma attempts_console env args : attempts (console env args) = [].
Proof. unfold console. by destruct (production env). Qed.

Lemma attempts_settle env outcomes targets completion subs :
  attempts (settle env outcomes targets completion subs).2 = [].
Proof.
  revert subs. induction completion as [|i rest IH]; intros subs; simpl; [done|].
  destruct (targets !! i) as [t|]; [|apply IH].
  destruct (outcomes i) as [|kind message]; [apply IH|]. simpl.
  specialize (IH (without (subscription t) subs)).
  destruct (settle _ _ _ _ _) as [subs'' es']. simpl in *.
  unfold attempts in *. rewrite omap_app, IH, app_nil_r.
  apply (attempts_console env).
Qed.

(** *** Claims about [POST /api/push/send] *)

(** C1: the code at the failing input.  Two registrations, a send to
    everybody; the delivery to the first fails with a timeout, a
    transient error.  The route answers 200, both deliveries were
    attempted, and the first registration is gone: the callback under the
    comment [Remove invalid subscription] runs on every rejection and
    never looks at the error. *)
Lemma push_send_transient_failure_evaluated :
  let st := push_run demo_env [Subscribe (JStr "u1"); Subscribe (JStr "u2")]
              empty_registry in
  let outcomes := λ i, match i with
                       | 0 => Rejected TransientFailure "connect ETIMEDOUT"
                       | _ => Fulfilled
                       end in
  let r := push_send demo_env outcomes [0; 1] (demo_body JUndefined) st in
  status r.1.1 = 200
  ∧ attempts r.2 = [0; 1]
  ∧ pushSubscriptions r.1.2 = [ {| userId := JStr "u2"; subscription := 1 |} ].
Proof. vm_compute. done. Qed.

(** The same defect against the wording of the specification: with one
    registration and a delivery that fails with a transient error,
    "removed exactly when rejected as permanently invalid" is false. *)
Lemma push_send_transient_removed :
  ¬ removed_iff_permanent demo_env
      (λ _, Rejected TransientFailure "connect ETIMEDOUT") [0]
      (demo_body JUndefined)
      (push_run demo_env [Subscribe (JStr "u1")] empty_registry).
Proof.
  intros Hclaim.
  destruct (Hclaim 0 {| userId := JStr "u1"; subscription := 0 |} eq_refl)
    as [Hremoved _].
  destruct Hremoved as [message Hm]; [|discriminate Hm].
  vm_compute. apply not_elem_of_nil.
Qed.

(** What the rejection callback amounts to, as the code is written: on
    every registry the routes can produce, a selected registration is
    removed by a send if and only if its own delivery is rejected, of
    whatever kind the rejection is. *)
Theorem push_send_removed_iff_rejected env rs outcomes completion req i t :
  let st := push_run env rs empty_registry in
  let targets := targetSubscriptions (pushSubscriptions st) (b_userId req) in
  completes completion targets →
  targets !! i = Some t →
  t ∉ pushSubscriptions (push_send env outcomes completion req st).1.2
  ↔ rejected (outcomes i) = true.
Proof.
  intros st targets Hc Hi.
  assert (Hne : targets ≠ []) by (intros Hn; by rewrite Hn in Hi).
  assert (Hd : distinct_descriptors st)
    by apply push_run_distinct, empty_registry_distinct.
  pose proof (targetSubscriptions_sublist (pushSubscriptions st) (b_userId req))
    as Hsub. fold targets in Hsub.
  assert (Hnd : NoDup (subscription <$> targets)).
  { eapply sublist_NoDup; [exact (proj1 Hd)|]. by apply fmap_sublist. }
  assert (Hin : t ∈ pushSubscriptions st).
  { eapply elem_of_sublist; [|exact Hsub]. by eapply list_elem_of_lookup_2. }
  rewrite (push_send_found env outcomes completion req st Hne). simpl.
  fold targets. rewrite (settle_elem_of env _ _ _ _ _ Hc). split.
  - intros Hnot. destruct (outcomes i) as [|kind message] eqn:Ho; [|done].
    exfalso. apply Hnot. split; [done|]. intros j t' Hj Heq.
    assert (j = i) as ->; [|done].
    eapply NoDup_lookup; [exact Hnd| |].
    + rewrite list_lookup_fmap, Hj. simpl. by rewrite Heq.
    + by rewrite list_lookup_fmap, Hi.
  - intros Hr [_ Hall]. rewrite (Hall i t Hi eq_refl) in Hr. done.
Qed.

Lemma push_send_removed_iff_rejected_witness :
  let rs := [Subscribe (JStr "u1"); Subscribe (JStr "u2"); Subscribe (JStr "u1")] in
  let outcomes := λ i, match i with
                       | 1 => Rejected TransientFailure "socket hang up"
                       | _ => Fulfilled
                       end in
  let t := {| userId := JStr "u1"; subscription := 2 |} in
  t ∉ pushSubscriptions
        (push_send demo_env outcomes [1; 0] (demo_body (JStr "u1"))
           (push_run demo_env rs empty_registry)).1.2
  ↔ rejected (outcomes 1) = true.
Proof.
  intros rs outcomes t.
  apply (push_send_removed_iff_rejected demo_env rs outcomes [1; 0]
           (demo_body (JStr "u1")) 1 t).
  - unfold completes. vm_compute. apply perm_swap.
  - vm_compute. reflexivity.
Defined.

(** C5: when the selected set is empty, the route answers 404, calls
    [sendNotification] for nobody and leaves the registry as it was. *)
Theorem push_send_not_found env outcomes completion req st :
  targetSubscriptions (pushSubscriptions st) (b_userId req) = [] →
  let r := push_send env outcomes completion req st in
  status r.1.1 = 404 ∧ attempts r.2 = [] ∧ r.1.2 = st.
Proof. intros Hnone. unfold push_send. rewrite Hnone. simpl. done. Qed.

Lemma push_send_not_found_witness :
  let st := push_run demo_env [Subscribe (JStr "u1")] empty_registry in
  let r := push_send demo_env (λ _, Fulfilled) [] (demo_body (JStr "u2")) st in
  status r.1.1 = 404 ∧ attempts r.2 = [] ∧ r.1.2 = st.
Proof.
  intros st.
  apply (push_send_not_found demo_env (λ _, Fulfilled) [] (demo_body (JStr "u2")) st).
  vm_compute. reflexivity.
Defined.

(** C6: when the selected set is not empty, [sendNotification] is called
    once for every selected registration, in order, whatever the outcome
    of any delivery, and the route answers 200. *)
Theorem push_send_attempts_all env outcomes completion req st :
  targetSubscriptions (pushSubscriptions st) (b_userId req) ≠ [] →
  let r := push_send env outcomes completion req st in
  status r.1.1 = 200
  ∧ attempts r.2
    = subscription <$> targetSubscriptions (pushSubscriptions st) (b_userId req).
Proof.
  intros Hne. rewrite (push_send_found env outcomes completion req st Hne).
  simpl. split; [done|]. unfold attempts. rewrite !omap_app.
  fold (attempts (settle env outcomes
    (targetSubscriptions (pushSubscriptions st) (b_userId req)) completion
    (pushSubscriptions st)).2).
  rewrite attempts_settle.
  match goal with |- context [omap ?f (console env ?a)] =>
    change (omap f (console env a)) with (attempts (console env a)) end.
  rewrite attempts_console, !app_nil_r. apply attempts_calls.
Qed.

Lemma push_send_attempts_all_witness :
  let st := push_run demo_env
              [Subscribe (JStr "u1"); Subscribe (JStr "u2"); Subscribe (JStr "u3")]
              empty_registry in
  let outcomes := λ i, match i with
                       | 1 => Rejected PermanentFailure "Received unexpected response code"
                       | _ => Fulfilled
                       end in
  let r := push_send demo_env outcomes [2; 0; 1] (demo_body JUndefined) st in
  status r.1.1 = 200 ∧ attempts r.2 = [0; 1; 2].
Proof.
  intros st outcomes.
  apply (push_send_attempts_all demo_env outcomes [2; 0; 1] (demo_body JUndefined) st).
  vm_compute. discriminate.
Defined.

(** The fan-out scenario of the specification: registrations A, B, C;
    the delivery to B is rejected as permanently invalid.  All three are
    attempted, B is gone, A and C remain. *)
Example push_send_fan_out :
  let st := push_run demo_env
              [Subscribe (JStr "A"); Subscribe (JStr "B"); Subscribe (JStr "C")]
              empty_registry in
  let outcomes := λ i, match i with
                       | 1 => Rejected PermanentFailure "Received unexpected response code"
                       | _ => Fulfilled
                       end in
  let r := push_send demo_env outcomes [2; 1; 0] (demo_body JNull) st in
  status r.1.1 = 200
  ∧ attempts r.2 = [0; 1; 2]
  ∧ pushSubscriptions r.1.2
    = [ {| userId := JStr "A"; subscription := 0 |};
        {| userId := JStr "C"; subscription := 2 |} ].
Proof. vm_compute. done. Qed.

(** C10: the rejection callback filters the array by the identity of the
    descriptor: no entry holding that descriptor is left, whatever its
    [userId]; for every other descriptor the entries holding it are the
    same, in number and order; and nothing is added or reordered. *)
Theorem on_rejected_filters_by_descriptor env target message subs :
  let subs' := (on_rejected env target message subs).1 in
  (∀ sub, sub ∈ subs → subscription sub = target → sub ∉ subs')
  ∧ (∀ d, d ≠ target →
       filter (λ sub, subscription sub = d) subs'
       = filter (λ sub, subscription sub = d) subs)
  ∧ subs' `sublist_of` subs.
Proof.
  simpl. split_and!.
  - intros sub _ Heq [_ Hne]%without_spec. done.
  - intros d Hd. unfold without.
    induction subs as [|s subs IH]; simpl; [done|].
    destruct (Nat.eqb (subscription s) target) eqn:Hs; simpl.
    + apply Nat.eqb_eq in Hs. rewrite filter_cons_False by congruence. exact IH.
    + rewrite !filter_cons. by rewrite IH.
  - apply without_sublist.
Qed.

Lemma on_rejected_filters_by_descriptor_witness :
  let subs := [ {| userId := JStr "u1"; subscription := 0 |};
                {| userId := JStr "u2"; subscription := 0 |};
                {| userId := JStr "u1"; subscription := 1 |} ] in
  (on_rejected demo_env 0 "gone" subs).1
  = [ {| userId := JStr "u1"; subscription := 1 |} ]
  ∧ filter (λ sub, subscription sub = 1) (on_rejected demo_env 0 "gone" subs).1
    = filter (λ sub, subscription sub = 1) subs.
Proof.
  intros subs. split; [reflexivity|].
  apply (on_rejected_filters_by_descriptor demo_env 0 "gone" subs). lia.
Defined.

(** ** The room directory *)

Lemma elem_of_members (d : gmap string (gset string)) room sid :
  sid ∈ members d room ↔ room ∈ rooms_of d sid.
Proof.
  unfold members, rooms_of. rewrite elem_of_dom. split.
  - intros [rooms [Hl Hin]%map_lookup_filter_Some]. by rewrite Hl.
  - destruct (d !! sid) as [rooms|] eqn:Hl; simpl; [|by intros ?%not_elem_of_empty].
    intros Hin. exists rooms. by apply map_lookup_filter_Some.
Qed.

Lemma user_room_not_admin user : user_room user ≠ "adminRoom".
Proof. unfold user_room. simpl. discriminate. Qed.

Lemma user_room_is_user_room user : is_user_room (user_room user) = true.
Proof.
  unfold is_user_room, user_room.
  by destruct (to_string (prop "_id" user)).
Qed.

(** *** What each listener does to the directory *)

(** Expose the steps of a handler written in the monad. *)
Ltac unfold_M :=
  unfold try_catch, mbind, M_bind, bind, lift, log, emit.

Lemma disconnect_run env sid (d : gmap string (gset string)) :
  disconnect env sid d
  = (Ok tt, delete sid d,
     match d !! sid with
     | Some _ => console env [JStr "Client disconnected:"; JStr sid]
     | None => []
     end).
Proof.
  unfold disconnect, on_disconnect, log.
  destruct (d !! sid) eqn:Hl; [done|]. by rewrite delete_id.
Qed.

Lemma joinAdmin_dir env sid token (d : gmap string (gset string)) :
  dir_of (joinAdmin env sid token d)
  = if admin_verified env token
    then alter (λ rooms, {[ "adminRoom" ]} ∪ rooms) sid d
    else delete sid d.
Proof.
  unfold joinAdmin, admin_verified. unfold_M.
  destruct (lookup_principal env token) as [user|message]; simpl.
  - destruct (truthy user && truthy (prop "isAdmin" user)); simpl; [done|].
    by rewrite disconnect_run.
  - by rewrite disconnect_run.
Qed.

Lemma joinUser_dir env sid arg (d : gmap string (gset string)) :
  dir_of (joinUser env sid arg d)
  = match get "token" arg with
    | Throw _ => d
    | Ok token =>
        match lookup_principal env token with
        | Ok user =>
            if truthy user
            then alter (λ rooms, {[ user_room user ]} ∪ rooms) sid d
            else delete sid d
        | Throw _ => delete sid d
        end
    end.
Proof.
  unfold joinUser. unfold_M.
  destruct (get "token" arg) as [token|message]; simpl; [|done].
  destruct (lookup_principal env token) as [user|message]; simpl.
  - destruct (truthy user); simpl; [done|]. by rewrite disconnect_run.
  - by rewrite disconnect_run.
Qed.

Lemma broadcast_order_run env populatedOrder (d : gmap string (gset string)) :
  broadcast_order env populatedOrder d
  = (Ok tt, d,
     Emit "adminRoom" "orderStatusUpdate" [populatedOrder] (members d "adminRoom")
     :: if has_owner populatedOrder
        then [Emit (user_room (prop "user" populatedOrder)) "orderStatusUpdate"
                [populatedOrder]
                (members d (user_room (prop "user" populatedOrder)))]
        else console env [JStr "No valid user ID for orderStatusUpdate:"; populatedOrder]).
Proof.
  unfold broadcast_order, has_owner. unfold_M.
  by destruct (truthy (prop "user" populatedOrder)
               && truthy (prop "_id" (prop "user" populatedOrder))).
Qed.

Lemma orderStatusUpdate_dir env order (d : gmap string (gset string)) :
  dir_of (orderStatusUpdate env order d) = d.
Proof.
  unfold orderStatusUpdate. unfold_M.
  destruct (invalid_order order); [done|].
  destruct (missing_user order); simpl.
  - destruct (Order_findById env (prop "_id" order)) as [p|message]; simpl; [|done].
    destruct (truthy p); simpl; [|done]. by rewrite broadcast_order_run.
  - by rewrite broadcast_order_run.
Qed.

Lemma connection_dir env sid (d : gmap string (gset string)) :
  dir_of (connection env sid d)
  = match d !! sid with Some _ => d | None => <[sid := ∅]> d end.
Proof. unfold connection. by destruct (d !! sid). Qed.

Lemma rooms_of_delete (d : gmap string (gset string)) sid sid' :
  rooms_of (delete sid d) sid' ⊆ rooms_of d sid'.
Proof.
  unfold rooms_of. destruct (decide (sid = sid')) as [->|Hne].
  - rewrite lookup_delete_eq. simpl. set_solver.
  - by rewrite lookup_delete_ne.
Qed.

Lemma rooms_of_join (d : gmap string (gset string)) sid sid' room room' :
  room' ∈ rooms_of (alter (λ rooms, {[ room ]} ∪ rooms) sid d) sid' →
  room' ∈ rooms_of d sid' ∨ (sid' = sid ∧ room' = room).
Proof.
  unfold rooms_of. destruct (decide (sid = sid')) as [->|Hne].
  - rewrite lookup_alter_eq. destruct (d !! sid') as [rooms|]; simpl.
    + intros [->%elem_of_singleton|?]%elem_of_union; auto.
    + by intros ?%not_elem_of_empty.
  - rewrite lookup_alter_ne by done. auto.
Qed.


(** *** Every listener, run to its end *)

Lemma emissions_console env args : emissions (console env args) = [].
Proof. unfold console. by destruct (production env). Qed.

Lemma emissions_app es1 es2 : emissions (es1 ++ es2) = emissions es1 ++ emissions es2.
Proof. unfold emissions. apply List.filter_app. Qed.

Lemma elem_of_emissions e es :
  e ∈ emissions es ↔ e ∈ es ∧ ∃ room event args to, e = Emit room event args to.
Proof.
  unfold emissions. rewrite !list_elem_of_In, filter_In.
  split; intros [Hin He]; (split; [done|]).
  - destruct e; try done. eauto.
  - by destruct He as (? & ? & ? & ? & ->).
Qed.

Lemma joinAdmin_run env sid token (d : gmap string (gset string)) :
  ∃ es, joinAdmin env sid token d
        = (Ok tt,
           if admin_verified env token
           then alter (λ rooms, {[ "adminRoom" ]} ∪ rooms) sid d
           else delete sid d,
           es)
        ∧ emissions es = []
        ∧ (production env = true → es = []).
Proof.
  unfold joinAdmin, admin_verified. unfold_M.
  destruct (lookup_principal env token) as [user|message]; simpl.
  - destruct (truthy user && truthy (prop "isAdmin" user)); simpl.
    + eexists. split; [done|]. split; [apply emissions_console|].
      intros Hp. unfold console. by rewrite Hp.
    + rewrite disconnect_run. simpl. eexists. split; [done|].
      split.
      * rewrite emissions_app, emissions_console.
        by destruct (d !! sid); rewrite ?emissions_console.
      * intros Hp. unfold console. rewrite Hp. by destruct (d !! sid).
  - rewrite disconnect_run. simpl. eexists. split; [done|]. split.
    + rewrite emissions_app, emissions_console.
      by destruct (d !! sid); rewrite ?emissions_console.
    + intros Hp. unfold console. rewrite Hp. by destruct (d !! sid).
Qed.

Lemma joinUser_run env sid arg token (d : gmap string (gset string)) :
  get "token" arg = Ok token →
  ∃ es, joinUser env sid arg d
        = (Ok tt,
           match lookup_principal env token with
           | Ok user =>
               if truthy user
               then alter (λ rooms, {[ user_room user ]} ∪ rooms) sid d
               else delete sid d
           | Throw _ => delete sid d
           end,
           es)
        ∧ emissions es = []
        ∧ (production env = true → es = []).
Proof.
  intros Hg. unfold joinUser. unfold_M. rewrite Hg. simpl.
  destruct (lookup_principal env token) as [user|message]; simpl.
  - destruct (truthy user); simpl.
    + eexists. split; [done|]. split; [apply emissions_console|].
      intros Hp. unfold console. by rewrite Hp.
    + rewrite disconnect_run. simpl. eexists. split; [done|].
      split.
      * rewrite emissions_app, emissions_console.
        by destruct (d !! sid); rewrite ?emissions_console.
      * intros Hp. unfold console. rewrite Hp. by destruct (d !! sid).
  - rewrite disconnect_run. simpl. eexists. split; [done|]. split.
    + rewrite emissions_app, emissions_console.
      by destruct (d !! sid); rewrite ?emissions_console.
    + intros Hp. unfold console. rewrite Hp. by destruct (d !! sid).
Qed.

Lemma joinUser_rejects env sid arg message (d : gmap string (gset string)) :
  get "token" arg = Throw message →
  joinUser env sid arg d = (Throw message, d, []).
Proof. intros Hg. unfold joinUser. unfold_M. by rewrite Hg. Qed.

Lemma get_throws k v message :
  get k v = Throw message → v = JUndefined ∨ v = JNull.
Proof. destruct v; simpl; intros; auto; discriminate. Qed.

Lemma orderStatusUpdate_run env order (d : gmap string (gset string)) :
  ∃ es, orderStatusUpdate env order d = (Ok tt, d, es)
        ∧ emissions es = order_broadcasts env order d
        ∧ (production env = true → es = order_broadcasts env order d).
Proof.
  unfold orderStatusUpdate, order_broadcasts, resolve_order. unfold_M.
  destruct (invalid_order order); simpl.
  { eexists. split; [done|]. split; [apply emissions_console|].
    intros Hp. unfold console. by rewrite Hp. }
  destruct (missing_user order); simpl.
  - destruct (Order_findById env (prop "_id" order)) as [p|message]; simpl.
    + destruct (truthy p); simpl.
      * rewrite broadcast_order_run. eexists. split; [done|]. split.
        -- rewrite emissions_app, emissions_console. simpl.
           destruct (has_owner p); [done|]. by rewrite emissions_console.
        -- intros Hp. unfold console. rewrite Hp. simpl.
           by destruct (has_owner p).
      * eexists. split; [done|]. split.
        -- by rewrite ?emissions_app, ?emissions_console.
        -- intros Hp. unfold console. by rewrite Hp.
    + eexists. split; [done|]. split.
      * by rewrite ?emissions_app, ?emissions_console.
      * intros Hp. unfold console. by rewrite Hp.
  - rewrite broadcast_order_run. eexists. split; [done|]. split.
    + simpl. destruct (has_owner order); [done|]. by rewrite emissions_console.
    + intros Hp. unfold console. rewrite Hp. simpl. by destruct (has_owner order).
Qed.

Lemma step_dir env i (d : gmap string (gset string)) :
  dir_of (step env i d)
  = match i with
    | Connect sid => match d !! sid with Some _ => d | None => <[sid := ∅]> d end
    | FromClient sid ev =>
        match d !! sid with
        | None => d
        | Some _ =>
            match ev with
            | JoinAdmin token =>
                if admin_verified env token
                then alter (λ rooms, {[ "adminRoom" ]} ∪ rooms) sid d
                else delete sid d
            | JoinUser arg =>
                match get "token" arg with
                | Throw _ => ∅
                | Ok token =>
                    match lookup_principal env token with
                    | Ok user =>
                        if truthy user
                        then alter (λ rooms, {[ user_room user ]} ∪ rooms) sid d
                        else delete sid d
                    | Throw _ => delete sid d
                    end
                end
            | Disconnect => delete sid d
            | _ => d
            end
        end
    end.
Proof.
  destruct i as [sid|sid ev]; simpl; [apply connection_dir|].
  destruct (d !! sid) eqn:Hs; [|done].
  destruct ev as [token|arg| | |order|]; simpl.
  - by destruct (joinAdmin_run env sid token d) as (es & -> & _).
  - destruct (get "token" arg) as [token|message] eqn:Hg.
    + by destruct (joinUser_run env sid arg token d Hg) as (es & -> & _).
    + by rewrite (joinUser_rejects env sid arg message d Hg).
  - done.
  - done.
  - by destruct (orderStatusUpdate_run env order d) as (es & -> & _).
  - by rewrite disconnect_run.
Qed.

(** A turn ends as its listener does, with the effects of its listener. *)
Lemma unhandled_result r : (unhandled r).1.1 = r.1.1.
Proof. by destruct r as [[[[]|message] d] es]. Qed.

Lemma unhandled_effects r : effects_of (unhandled r) = effects_of r.
Proof. by destruct r as [[[[]|message] d] es]. Qed.

(** *** Credential failures *)

Lemma verification_failure_iff env token :
  verification_failure env token ↔ user_verified env token = false.
Proof.
  unfold user_verified. split.
  - intros [message Hr|stripped message Hr Hv|message Hl|user Hl Hu].
    + unfold lookup_principal. by rewrite Hr.
    + unfold lookup_principal. by rewrite Hr, Hv.
    + by rewrite Hl.
    + by rewrite Hl.
  - destruct (lookup_principal env token) as [user|message] eqn:Hl.
    + intros Hu. by eapply unknown_principal.
    + intros _. by eapply lookup_error.
Qed.

Lemma admin_failure_iff env token :
  admin_failure env token ↔ admin_verified env token = false.
Proof.
  unfold admin_verified. split.
  - intros [Hf%verification_failure_iff|user Hl Ha].
    + unfold user_verified in Hf.
      destruct (lookup_principal env token); [|done]. by rewrite Hf.
    + rewrite Hl, Ha. apply andb_false_r.
  - destruct (lookup_principal env token) as [user|message] eqn:Hl.
    + intros [Hu|Ha]%andb_false_iff.
      * apply not_verified. by eapply unknown_principal.
      * by eapply missing_admin_rights.
    + intros _. apply not_verified. by eapply lookup_error.
Qed.

(** *** One turn, seen from the rooms *)

(** A session is in a room after a turn only if it was before, or if the
    turn is its own join event with a credential that verified. *)
Lemma step_rooms env i (d : gmap string (gset string)) sid room :
  room ∈ rooms_of (dir_of (step env i d)) sid →
  room ∈ rooms_of d sid ∨ granted [(env, i)] sid room.
Proof.
  rewrite step_dir. destruct i as [s|s ev].
  - destruct (d !! s) eqn:Hs; [auto|].
    unfold rooms_of. destruct (decide (s = sid)) as [->|Hne].
    + rewrite lookup_insert_eq. by intros ?%not_elem_of_empty.
    + rewrite lookup_insert_ne by done. auto.
  - destruct (d !! s) eqn:Hs; [|by auto].
    destruct ev as [token|arg| | |order|]; auto.
    + unfold admin_verified.
      destruct (lookup_principal env token) as [user|message] eqn:Hl;
        [destruct (truthy user) eqn:Hu, (truthy (prop "isAdmin" user)) eqn:Ha|];
        simpl; try (intros ?%rooms_of_delete; by auto).
      intros [?|[-> ->]]%rooms_of_join; [by auto|].
      right. left. split; [done|]. exists env, token, user.
      split_and!; try done. apply list_elem_of_singleton. done.
    + destruct (get "token" arg) as [token|message] eqn:Hg.
      2:{ unfold rooms_of. rewrite lookup_empty. by intros ?%not_elem_of_empty. }
      destruct (lookup_principal env token) as [user|message] eqn:Hl;
        [destruct (truthy user) eqn:Hu|];
        simpl; try (intros ?%rooms_of_delete; by auto).
      intros [?|[-> ->]]%rooms_of_join; [by auto|].
      right. right. split; [apply user_room_not_admin|].
      exists env, arg, token, user.
      split_and!; try done. apply list_elem_of_singleton. done.
    + intros ?%rooms_of_delete. auto.
Qed.

Lemma granted_mono l1 l2 l3 sid room :
  granted l2 sid room → granted (l1 ++ l2 ++ l3) sid room.
Proof.
  intros [[-> (env & token & user & Hin & H)]
         |[Hne (env & arg & token & user & Hin & H)]].
  - left. split; [done|]. exists env, token, user. split; [|done].
    rewrite !elem_of_app. auto.
  - right. split; [done|]. exists env, arg, token, user. split; [|done].
    rewrite !elem_of_app. auto.
Qed.

Lemma run_granted past turns (d : gmap string (gset string)) :
  (∀ sid room, room ∈ rooms_of d sid → granted past sid room) →
  ∀ sid room, room ∈ rooms_of (run turns d) sid → granted (past ++ turns) sid room.
Proof.
  revert past d. induction turns as [|[env i] rest IH]; intros past d Hd sid room; simpl.
  - rewrite app_nil_r. apply Hd.
  - intros Hin. rewrite (cons_middle _ past rest), app_assoc.
    eapply IH; [|exact Hin]. clear sid room Hin. intros sid room Hin.
    apply step_rooms in Hin as [Hold|Hnew].
    + apply (granted_mono [] past [(env, i)]). by apply Hd.
    + apply (granted_mono past [(env, i)] []) in Hnew.
      by rewrite app_nil_r in Hnew.
Qed.

(** *** Claims about the session gateway *)

(** C2 (as stated), refuted: a session that sends [joinUser] twice, with
    the valid tokens of two users, is in both users' rooms; no handler
    ever leaves a room. *)
Lemma two_user_rooms :
  ¬ at_most_one_user_room (run two_principals ∅) "s1".
Proof.
  intros Hone.
  assert (Hrooms : rooms_of (run two_principals ∅) "s1" = {[ "user_a1"; "user_b2" ]})
    by (vm_compute; reflexivity).
  specialize (Hone "user_a1" "user_b2"). rewrite Hrooms in Hone.
  discriminate Hone; [set_solver|set_solver|reflexivity|reflexivity].
Qed.

(** C2 (amended): after any sequence of turns from the empty directory,
    a session is in [adminRoom] only if it sent a [joinAdmin] whose
    credential resolved to a user with [isAdmin], and it is in any other
    room only if that room is the [user_<id>] room of a user one of its
    [joinUser] credentials resolved to. *)
Theorem rooms_are_granted turns sid :
  ("adminRoom" ∈ rooms_of (run turns ∅) sid → admin_grant turns sid)
  ∧ (∀ room, room ∈ rooms_of (run turns ∅) sid → room ≠ "adminRoom" →
       is_user_room room = true ∧ user_grant turns sid room).
Proof.
  assert (Hall : ∀ room, room ∈ rooms_of (run turns ∅) sid → granted turns sid room).
  { intros room Hin. apply (run_granted [] turns ∅); [|done].
    intros s r. unfold rooms_of. rewrite lookup_empty. simpl.
    by intros ?%not_elem_of_empty. }
  split.
  - intros Hin. by destruct (Hall _ Hin) as [[_ Hg]|[Hne _]].
  - intros room Hin Hne. destruct (Hall _ Hin) as [[-> _]|[_ Hg]]; [done|].
    split; [|done]. destruct Hg as (env & arg & token & user & _ & _ & _ & _ & ->).
    apply user_room_is_user_room.
Qed.

Lemma rooms_are_granted_witness :
  let turns := two_principals
               ++ [(demo_env, FromClient "s1" (JoinAdmin (JStr "Bearer tokRoot")))] in
  admin_grant turns "s1"
  ∧ is_user_room "user_b2" = true ∧ user_grant turns "s1" "user_b2".
Proof.
  intros turns.
  destruct (rooms_are_granted turns "s1") as [Hadmin Huser]. split.
  - apply Hadmin. vm_compute. reflexivity.
  - apply Huser; [vm_compute; reflexivity|discriminate].
Defined.

(** The failures the [try] blocks of the join listeners cover: when the
    credential of a [joinAdmin] or [joinUser] event with a payload fails
    verification (token that is no string, token the verifier rejects,
    failing or empty user lookup, user without [isAdmin] on the admin
    path), the session ends disconnected and in no room, and nothing else
    in the directory changes. *)
Theorem failed_join_disconnects env (d : gmap string (gset string)) sid ev :
  connected d sid →
  join_fails env ev →
  let d' := dir_of (step env (FromClient sid ev) d) in
  ¬ connected d' sid ∧ rooms_of d' sid = ∅ ∧ d' = delete sid d.
Proof.
  intros [rooms Hs] Hfail.
  assert (Hd : dir_of (step env (FromClient sid ev) d) = delete sid d).
  { rewrite step_dir, Hs.
    destruct ev as [token|arg| | |order|]; simpl in Hfail; try done.
    - apply admin_failure_iff in Hfail. by rewrite Hfail.
    - destruct Hfail as (token & -> & Hf).
      apply verification_failure_iff in Hf. unfold user_verified in Hf.
      destruct (lookup_principal env token); [by rewrite Hf|done]. }
  cbv zeta. rewrite Hd. unfold connected, rooms_of. rewrite lookup_delete_eq.
  split_and!; [by intros [? ?]|done|done].
Qed.

Lemma failed_join_disconnects_witness :
  let d := run (two_principals
                ++ [(demo_env, Connect "s2");
                    (demo_env, FromClient "s2" (JoinUser (JObj [("token", JStr "tokB")])))]) ∅ in
  let d' := dir_of (step demo_env (FromClient "s1" (JoinAdmin (JStr "Bearer tokA"))) d) in
  ¬ connected d' "s1" ∧ rooms_of d' "s1" = ∅ ∧ d' = delete "s1" d.
Proof.
  intros d.
  apply (failed_join_disconnects demo_env d "s1" (JoinAdmin (JStr "Bearer tokA"))).
  - vm_compute. eexists. reflexivity.
  - simpl. eapply missing_admin_rights; vm_compute; reflexivity.
Defined.

(** A [joinUser] event without a payload object escapes the [try]: the
    parameter pattern throws before it, the listener never calls
    [socket.disconnect()], and its promise rejects. *)
Lemma joinUser_without_payload env sid arg (d : gmap string (gset string)) :
  arg = JUndefined ∨ arg = JNull →
  ∃ message, joinUser env sid arg d = (Throw message, d, []).
Proof. intros [-> | ->]; eexists; reflexivity. Qed.

(** C4: the code at the failing input.  Session [s1] is in two user
    rooms and [s2] is an admin; [s1] sends [joinUser] with no payload.
    The listener ends with an exception and without a disconnect, and
    the unhandled rejection takes the whole server down, [s2] included.
    The neighbouring inputs, [joinAdmin] with no token and [joinUser]
    with an empty object, are caught and disconnect [s1] alone. *)
Lemma joinUser_without_payload_evaluated :
  let d := run (two_principals
                ++ [(demo_env, Connect "s2");
                    (demo_env, FromClient "s2" (JoinAdmin (JStr "Bearer tokRoot")))]) ∅ in
  (∃ message, joinUser demo_env "s1" JUndefined d = (Throw message, d, []))
  ∧ (∃ message, step demo_env (FromClient "s1" (JoinUser JUndefined)) d
                = (Throw message, ∅, []))
  ∧ rooms_of d "s2" = {[ "adminRoom" ]}
  ∧ dir_of (step demo_env (FromClient "s1" (JoinAdmin JUndefined)) d) = delete "s1" d
  ∧ dir_of (step demo_env (FromClient "s1" (JoinUser (JObj []))) d) = delete "s1" d.
Proof.
  intros d. split_and!.
  - eexists. reflexivity.
  - eexists. vm_compute. reflexivity.
  - vm_compute. reflexivity.
  - vm_compute. reflexivity.
  - vm_compute. reflexivity.
Qed.

(** *** Claims about the event router *)


(** An order is accepted exactly when it is an object with a truthy [_id]. *)
Lemma invalid_order_false order :
  invalid_order order = false
  ↔ ∃ fields, order = JObj fields ∧ truthy (assoc "_id" fields) = true.
Proof.
  unfold invalid_order. split.
  - destruct order as [| |b|n|s|items|fields]; simpl;
      rewrite ?orb_true_r, ?orb_false_r; try done.
    intros Hid%negb_false_iff. eauto.
  - intros (fields & -> & Hid). simpl. by rewrite Hid.
Qed.




(** The order scenario of the specification: an order of user [b2] sent
    by a client reaches the admin session and the session in [user_b2],
    and not a session that is only in [user_a1]. *)
Example order_scenario :
  let d := run [ (demo_env, Connect "admin");
                 (demo_env, FromClient "admin" (JoinAdmin (JStr "Bearer tokRoot")));
                 (demo_env, Connect "bob");
                 (demo_env, FromClient "bob" (JoinUser (JObj [("token", JStr "Bearer tokB")])));
                 (demo_env, Connect "ada");
                 (demo_env, FromClient "ada" (JoinUser (JObj [("token", JStr "Bearer tokA")]))) ] ∅ in
  let order := JObj [("_id", JStr "o1"); ("user", JObj [("_id", JStr "b2")])] in
  effects_of (step demo_env (FromClient "ada" (OrderStatusUpdate order)) d)
  = [ Emit "adminRoom" "orderStatusUpdate" [order] {[ "admin" ]};
      Emit "user_b2" "orderStatusUpdate" [order] {[ "bob" ]} ].
Proof. vm_compute. reflexivity. Qed.

(** C7: an [orderStatusUpdate] event whose argument is no object, or an
    object without a (truthy) [_id], is only logged: nothing is
    broadcast, no session receives anything, and the directory is as it
    was. *)
Theorem invalid_order_dropped env (d : gmap string (gset string)) sid order :
  connected d sid →
  (∀ fields, order = JObj fields → truthy (assoc "_id" fields) = false) →
  let r := step env (FromClient sid (OrderStatusUpdate order)) d in
  effects_of r
  = console env [JStr "Invalid order received in orderStatusUpdate event:"; order]
  ∧ emissions (effects_of r) = []
  ∧ (∀ s event args, ¬ receives (effects_of r) s event args)
  ∧ dir_of r = d.
Proof.
  intros [rooms Hs] Hno. simpl. rewrite Hs.
  assert (Hinv : invalid_order order = true).
  { destruct (invalid_order order) eqn:Hi; [done|].
    apply invalid_order_false in Hi as (fields & -> & Hid).
    by rewrite (Hno fields eq_refl) in Hid. }
  assert (Hrun : orderStatusUpdate env order d
    = (Ok tt, d,
       console env [JStr "Invalid order received in orderStatusUpdate event:"; order])).
  { unfold orderStatusUpdate, try_catch, log. by rewrite Hinv. }
  rewrite Hrun. unfold effects_of, dir_of. simpl.
  split_and!; [done|apply emissions_console| |done].
  intros s event args (room & to & Hin & _).
  unfold console in Hin. destruct (production env).
  - by apply not_elem_of_nil in Hin.
  - by apply list_elem_of_singleton in Hin.
Qed.

Lemma invalid_order_dropped_witness :
  let d := run two_principals ∅ in
  let order := JObj [("status", JStr "shipped"); ("_id", JStr "")] in
  let r := step demo_env (FromClient "s1" (OrderStatusUpdate order)) d in
  effects_of r
  = console demo_env [JStr "Invalid order received in orderStatusUpdate event:"; order]
  ∧ emissions (effects_of r) = []
  ∧ (∀ s event args, ¬ receives (effects_of r) s event args)
  ∧ dir_of r = d.
Proof.
  intros d order.
  apply (invalid_order_dropped demo_env d "s1" order).
  - vm_compute. eexists. reflexivity.
  - intros fields [= <-]. reflexivity.
Defined.

(** C8: when any connected client sends [productUpdate] (or
    [categoryUpdate]), a session receives an event if and only if it is
    in [adminRoom], and what it receives is that event name with no
    argument. *)
Theorem catalog_update_reaches_admin_room env (d : gmap string (gset string))
    sender ev :
  connected d sender →
  ev = ProductUpdate ∨ ev = CategoryUpdate →
  ∀ sid event args,
    receives (effects_of (step env (FromClient sender ev) d)) sid event args
    ↔ "adminRoom" ∈ rooms_of d sid ∧ event = event_name ev ∧ args = [].
Proof.
  intros [rooms Hs] Hev sid event args. simpl. rewrite Hs.
  assert (Hrun : effects_of (unhandled (listener env sender ev d))
                 = [Emit "adminRoom" (event_name ev) [] (members d "adminRoom")])
    by (by destruct Hev as [-> | ->]).
  rewrite Hrun. unfold receives. split.
  - intros (room & to & Hin%list_elem_of_singleton & Hto).
    injection Hin as -> -> -> ->. by apply elem_of_members in Hto.
  - intros (Hin & -> & ->). exists "adminRoom", (members d "adminRoom").
    split; [by apply list_elem_of_singleton|by apply elem_of_members].
Qed.

Lemma catalog_update_reaches_admin_room_witness :
  let d := run (two_principals
                ++ [(demo_env, Connect "s2");
                    (demo_env, FromClient "s2" (JoinAdmin (JStr "Bearer tokRoot")))]) ∅ in
  receives (effects_of (step demo_env (FromClient "s1" ProductUpdate) d))
    "s2" "productUpdate" []
  ∧ ¬ receives (effects_of (step demo_env (FromClient "s1" ProductUpdate) d))
        "s1" "productUpdate" [].
Proof.
  intros d.
  pose proof (catalog_update_reaches_admin_room demo_env d "s1" ProductUpdate) as H.
  assert (Hc : connected d "s1") by (vm_compute; eexists; reflexivity).
  specialize (H Hc (or_introl eq_refl)). split.
  - apply H. split_and!; [vm_compute; reflexivity|done|done].
  - intros [Hin _]%H. vm_compute in Hin. discriminate Hin.
Defined.

(** C9: the two rebroadcast listeners look at nothing about the sender:
    for every connected session, whatever rooms it is in and even if it
    never joined any, the turn is the single broadcast to [adminRoom]
    and the directory is untouched. *)
Theorem catalog_update_unchecked env (d : gmap string (gset string)) sender ev :
  connected d sender →
  ev = CategoryUpdate ∨ ev = ProductUpdate →
  step env (FromClient sender ev) d
  = (Ok tt, d, [Emit "adminRoom" (event_name ev) [] (members d "adminRoom")]).
Proof.
  intros [rooms Hs] Hev. simpl. rewrite Hs. by destruct Hev as [-> | ->].
Qed.

Lemma catalog_update_unchecked_witness :
  let d := run [(demo_env, Connect "s2");
                (demo_env, FromClient "s2" (JoinAdmin (JStr "Bearer tokRoot")));
                (demo_env, Connect "anon")] ∅ in
  rooms_of d "anon" = ∅
  ∧ step demo_env (FromClient "anon" CategoryUpdate) d
    = (Ok tt, d, [Emit "adminRoom" "categoryUpdate" [] (members d "adminRoom")]).
Proof.
  intros d. split; [vm_compute; reflexivity|].
  apply (catalog_update_unchecked demo_env d "anon" CategoryUpdate).
  - vm_compute. eexists. reflexivity.
  - by left.
Defined.

(** * Further properties of the server and of the service worker *)

(** ** The push routes, composed *)

Lemma targetSubscriptions_snoc subs uid sub :
  strict_equal (userId sub) uid = true ∨ truthy uid = false →
  targetSubscriptions (subs ++ [sub]) uid = targetSubscriptions subs uid ++ [sub].
Proof.
  unfold targetSubscriptions. intros Hsel.
  destruct (truthy uid); [|done].
  destruct Hsel as [Heq|?]; [|done].
  rewrite List.filter_app. simpl. by rewrite Heq.
Qed.

Lemma settle_fulfilled env outcomes targets completion subs :
  (∀ i t, targets !! i = Some t → outcomes i = Fulfilled) →
  settle env outcomes targets completion subs = (subs, []).
Proof.
  intros Hall. induction completion as [|i rest IH]; simpl; [done|].
  destruct (targets !! i) as [t|] eqn:Ht; [|done].
  by rewrite (Hall i t Ht).
Qed.

Lemma push_send_attempts env outcomes completion req st :
  attempts (push_send env outcomes completion req st).2
  = subscription <$> targetSubscriptions (pushSubscriptions st) (b_userId req).
Proof.
  destruct (targetSubscriptions (pushSubscriptions st) (b_userId req))
    as [|t ts] eqn:Ht.
  { unfold push_send. by rewrite Ht. }
  assert (Hne : targetSubscriptions (pushSubscriptions st) (b_userId req) ≠ [])
    by (by rewrite Ht).
  rewrite (push_send_found env outcomes completion req st Hne).
  cbv zeta. unfold snd at 1. unfold attempts.
  rewrite !omap_app.
  change (omap (λ e, match e with SendNotification s _ => Some s | _ => None end))
    with attempts.
  rewrite attempts_settle, attempts_console, attempts_calls, !app_nil_r.
  by rewrite Ht.
Qed.

Lemma push_send_status env outcomes completion req st :
  status (push_send env outcomes completion req st).1.1
  = match targetSubscriptions (pushSubscriptions st) (b_userId req) with
    | [] => 404
    | _ :: _ => 200
    end.
Proof.
  unfold push_send.
  destruct (targetSubscriptions (pushSubscriptions st) (b_userId req)); simpl; [done|].
  by destruct (settle _ _ _ _ _).
Qed.

(** X1: a registration is found by the next send.  After a subscribe
    call for user [u], a send addressed to [u] (a user id that is [===]
    to [u]) and a send addressed to everybody (no user id, or a falsy
    one) both answer 200 and call [sendNotification] for every
    registration they would have reached before and then for the new
    one. *)
Theorem subscribe_then_send_reaches env u outcomes completion req st :
  strict_equal u (b_userId req) = true ∨ truthy (b_userId req) = false →
  let r := push_send env outcomes completion req (push_subscribe env u st).1.2 in
  status r.1.1 = 200
  ∧ attempts r.2
    = (subscription <$> targetSubscriptions (pushSubscriptions st) (b_userId req))
      ++ [next_ref st].
Proof.
  intros Hsel r. subst r.
  rewrite push_send_status, push_send_attempts. simpl.
  rewrite targetSubscriptions_snoc by done. rewrite fmap_app. split; [|done].
  by destruct (targetSubscriptions (pushSubscriptions st) (b_userId req)).
Qed.

Lemma subscribe_then_send_reaches_witness :
  let st := push_run demo_env [Subscribe (JStr "u1"); Subscribe (JStr "u2")]
              empty_registry in
  let st' := (push_subscribe demo_env (JStr "u1") st).1.2 in
  let to_u1 := push_send demo_env (λ _, Fulfilled) [0; 1] (demo_body (JStr "u1")) st' in
  let to_all := push_send demo_env (λ _, Fulfilled) [0; 1; 2] (demo_body JUndefined) st' in
  (status to_u1.1.1 = 200 ∧ attempts to_u1.2 = [0; 2])
  ∧ (status to_all.1.1 = 200 ∧ attempts to_all.2 = [0; 1; 2]).
Proof.
  intros st. split.
  - apply (subscribe_then_send_reaches demo_env (JStr "u1") (λ _, Fulfilled) [0; 1]
             (demo_body (JStr "u1")) st).
    left. reflexivity.
  - apply (subscribe_then_send_reaches demo_env (JStr "u1") (λ _, Fulfilled) [0; 1; 2]
             (demo_body JUndefined) st).
    right. reflexivity.
Defined.

(** X2: a send never adds a registration, never reorders the ones it
    keeps, and hands out no reference. *)
Theorem push_send_only_removes env outcomes completion req st :
  let st' := (push_send env outcomes completion req st).1.2 in
  pushSubscriptions st' `sublist_of` pushSubscriptions st
  ∧ next_ref st' = next_ref st.
Proof.
  split; [apply push_send_sublist|apply push_send_next_ref].
Qed.

(** X3: whatever requests the two routes have served since the server
    started, no two registrations hold the same descriptor object, and
    every descriptor is older than the next one to be handed out. *)
Theorem registry_descriptors_distinct env rs :
  let st := push_run env rs empty_registry in
  NoDup (subscription <$> pushSubscriptions st)
  ∧ ∀ sub, sub ∈ pushSubscriptions st → subscription sub < next_ref st.
Proof. apply (push_run_distinct env rs), empty_registry_distinct. Qed.

(** X4: the order in which the deliveries of one send settle does not
    matter for the answer nor for the registry it leaves. *)
Theorem push_send_order_irrelevant env outcomes c1 c2 req st :
  c1 ≡ₚ c2 →
  (push_send env outcomes c1 req st).1 = (push_send env outcomes c2 req st).1.
Proof.
  intros Hp. unfold push_send. destruct (Nat.eqb _ 0); [done|].
  pose proof (settle_order_irrelevant env outcomes
    (targetSubscriptions (pushSubscriptions st) (b_userId req)) c1 c2
    (pushSubscriptions st) Hp) as Heq.
  destruct (settle env outcomes _ c1 _) as [subs1 es1],
           (settle env outcomes _ c2 _) as [subs2 es2].
  simpl in *. by subst.
Qed.

Lemma push_send_order_irrelevant_witness :
  let st := push_run demo_env
              [Subscribe (JStr "u1"); Subscribe (JStr "u2"); Subscribe (JStr "u3")]
              empty_registry in
  let outcomes := λ i, match i with
                       | 0 => Rejected TransientFailure "socket hang up"
                       | 2 => Rejected PermanentFailure "gone"
                       | _ => Fulfilled
                       end in
  (push_send demo_env outcomes [0; 1; 2] (demo_body JUndefined) st).1
  = (push_send demo_env outcomes [2; 1; 0] (demo_body JUndefined) st).1.
Proof.
  intros st outcomes.
  apply (push_send_order_irrelevant demo_env outcomes [0; 1; 2] [2; 1; 0]
           (demo_body JUndefined) st).
  change [0; 1; 2] with ([0] ++ [1; 2]). change [2; 1; 0] with ([2; 1] ++ [0]).
  etransitivity; [apply Permutation_app_comm|].
  apply Permutation_app_tail, perm_swap.
Defined.

(** X5: a send whose deliveries all succeed leaves the registry exactly
    as it was. *)
Theorem push_send_all_fulfilled env outcomes completion req st :
  (∀ i, i < length (targetSubscriptions (pushSubscriptions st) (b_userId req)) →
        outcomes i = Fulfilled) →
  (push_send env outcomes completion req st).1.2 = st.
Proof.
  intros Hall. unfold push_send. destruct (Nat.eqb _ 0); [done|].
  rewrite settle_fulfilled.
  - simpl. by destruct st.
  - intros i t Ht. apply Hall. by eapply lookup_lt_Some.
Qed.

Lemma push_send_all_fulfilled_witness :
  let st := push_run demo_env [Subscribe (JStr "u1"); Subscribe (JStr "u2")]
              empty_registry in
  (push_send demo_env (λ _, Fulfilled) [1; 0] (demo_body JNull) st).1.2 = st.
Proof.
  intros st.
  apply (push_send_all_fulfilled demo_env (λ _, Fulfilled) [1; 0] (demo_body JNull) st).
  reflexivity.
Defined.

(** X6: when every delivery of a send is rejected, the same request sent
    again finds nobody: it answers 404. *)
Theorem push_send_all_rejected_then_not_found
    env outcomes completion outcomes' completion' req st :
  completes completion (targetSubscriptions (pushSubscriptions st) (b_userId req)) →
  (∀ i, i < length (targetSubscriptions (pushSubscriptions st) (b_userId req)) →
        rejected (outcomes i) = true) →
  let st' := (push_send env outcomes completion req st).1.2 in
  status (push_send env outcomes' completion' req st').1.1 = 404.
Proof.
  intros Hc Hall st'.
  assert (Hnone : targetSubscriptions (pushSubscriptions st') (b_userId req) = []).
  { destruct (decide (targetSubscriptions (pushSubscriptions st) (b_userId req) = []))
      as [Hempty|Hne].
    { subst st'. unfold push_send. by rewrite Hempty. }
    assert (Hgone : ∀ sub, sub ∈ pushSubscriptions st' →
                           sub ∈ targetSubscriptions (pushSubscriptions st) (b_userId req) →
                           False).
    { intros sub Hin Htarget. subst st'.
      rewrite (push_send_found env outcomes completion req st Hne) in Hin.
      simpl in Hin. apply (settle_elem_of env _ _ _ _ _ Hc) in Hin as [_ Hful].
      apply list_elem_of_lookup in Htarget as [i Hi].
      specialize (Hall i (lookup_lt_Some _ _ _ Hi)).
      by rewrite (Hful i sub Hi eq_refl) in Hall. }
    apply targetSubscriptions_nil. unfold targetSubscriptions in Hgone.
    pose proof (push_send_sublist env outcomes completion req st) as Hsub.
    fold st' in Hsub.
    destruct (truthy (b_userId req)).
    - intros sub Hin. destruct (strict_equal (userId sub) (b_userId req)) eqn:Hs; [|done].
      exfalso. apply (Hgone sub Hin).
      apply list_elem_of_In, filter_In. split; [|done].
      apply list_elem_of_In. by eapply elem_of_sublist.
    - destruct (pushSubscriptions st') as [|sub rest] eqn:Hst'; [done|].
      exfalso. apply (Hgone sub); [by left|].
      eapply elem_of_sublist; [|exact Hsub]. by left. }
  unfold push_send. by rewrite Hnone.
Qed.

Lemma push_send_all_rejected_then_not_found_witness :
  let st := push_run demo_env
              [Subscribe (JStr "u1"); Subscribe (JStr "u2"); Subscribe (JStr "u1")]
              empty_registry in
  let outcomes := λ _ : nat, Rejected TransientFailure "connect ETIMEDOUT" in
  let st' := (push_send demo_env outcomes [1; 0] (demo_body (JStr "u1")) st).1.2 in
  status (push_send demo_env (λ _, Fulfilled) [] (demo_body (JStr "u1")) st').1.1 = 404.
Proof.
  intros st outcomes.
  apply (push_send_all_rejected_then_not_found demo_env outcomes [1; 0]
           (λ _, Fulfilled) [] (demo_body (JStr "u1")) st).
  - unfold completes. vm_compute. apply perm_swap.
  - intros i _. reflexivity.
Defined.

(** ** The listeners, turn by turn *)


Lemma step_emissions env i (d : gmap string (gset string)) :
  turn_broadcasts env d i (emissions (effects_of (step env i d)))
  ∧ (production env = true →
     effects_of (step env i d) = emissions (effects_of (step env i d))).
Proof.
  destruct i as [sid|sid ev]; simpl.
  - unfold connection, log. destruct (d !! sid); simpl.
    + split; [constructor|done].
    + unfold effects_of. simpl. rewrite emissions_console.
      split; [constructor|]. intros Hp. unfold console. by rewrite Hp.
  - destruct (d !! sid) as [rooms|] eqn:Hs; [|split; [constructor|done]].
    assert (Hc : connected d sid) by (by exists rooms).
    destruct ev as [token|arg| | |order|]; simpl.
    + destruct (joinAdmin_run env sid token d) as (es & -> & He & Hp).
      unfold effects_of. simpl. rewrite He. split; [constructor|done].
    + destruct (get "token" arg) as [token|message] eqn:Hg.
      * destruct (joinUser_run env sid arg token d Hg) as (es & -> & He & Hp).
        unfold effects_of. simpl. rewrite He. split; [constructor|done].
      * rewrite (joinUser_rejects env sid arg message d Hg).
        split; [constructor|done].
    + split; [|done]. apply (tb_catalog env d sid CategoryUpdate); auto.
    + split; [|done]. apply (tb_catalog env d sid ProductUpdate); auto.
    + destruct (orderStatusUpdate_run env order d) as (es & -> & He & Hp).
      unfold effects_of. simpl. rewrite He. split; [by constructor|done].
    + rewrite disconnect_run, Hs. unfold effects_of. simpl.
      rewrite emissions_console. split; [constructor|].
      intros Hp. unfold console. by rewrite Hp.
Qed.

Lemma logs_emissions es : logs (emissions es) = [].
Proof.
  unfold logs, emissions. induction es as [|e es IH]; simpl; [done|].
  destruct e; simpl; done.
Qed.


(** Another session's entry after a turn: as it was, unless the process
    ended. *)
Lemma step_other env i (d : gmap string (gset string)) sid :
  sender i ≠ sid →
  dir_of (step env i d) !! sid = d !! sid ∨ dir_of (step env i d) = ∅.
Proof.
  intros Hne. rewrite step_dir.
  destruct i as [s|s ev]; simpl in Hne.
  - destruct (d !! s); [by left|]. left. by rewrite lookup_insert_ne.
  - destruct (d !! s); [|by left].
    destruct ev as [token|arg| | |order|]; try (by left).
    + destruct (admin_verified env token); left;
        [by rewrite lookup_alter_ne|by rewrite lookup_delete_ne].
    + destruct (get "token" arg) as [token|]; [left|by right].
      destruct (lookup_principal env token) as [user|];
        [destruct (truthy user)|];
        by rewrite ?lookup_alter_ne, ?lookup_delete_ne by done.
    + left. by rewrite lookup_delete_ne.
Qed.

(** The turns that do not end normally. *)
Lemma step_throws env i (d : gmap string (gset string)) message :
  (step env i d).1.1 = Throw message →
  ∃ sid arg, i = FromClient sid (JoinUser arg)
             ∧ connected d sid ∧ get "token" arg = Throw message.
Proof.
  destruct i as [sid|sid ev]; simpl.
  { unfold connection, log. by destruct (d !! sid). }
  destruct (d !! sid) as [rooms|] eqn:Hs; [|done].
  rewrite unhandled_result.
  destruct ev as [token|arg| | |order|]; simpl; try done.
  - by destruct (joinAdmin_run env sid token d) as (es & -> & _).
  - destruct (get "token" arg) as [token|m] eqn:Hg.
    + by destruct (joinUser_run env sid arg token d Hg) as (es & -> & _).
    + rewrite (joinUser_rejects env sid arg m d Hg). simpl. intros [= ->].
      exists sid, arg. split_and!; [done|by exists rooms|done].
  - by destruct (orderStatusUpdate_run env order d) as (es & -> & _).
  - by rewrite disconnect_run.
Qed.

(** X7: a turn that ends normally touches the rooms of the session it
    belongs to and of no other: no client can join, move or disconnect
    somebody else.  The one turn that does not end normally, a
    [joinUser] without a payload object, ends the process: it leaves no
    session at all. *)
Theorem step_frame env i (d : gmap string (gset string)) :
  ((step env i d).1.1 = Ok tt →
   ∀ sid, sender i ≠ sid → dir_of (step env i d) !! sid = d !! sid)
  ∧ (∀ message, (step env i d).1.1 = Throw message → dir_of (step env i d) = ∅).
Proof.
  split.
  - intros Hok sid Hne. rewrite step_dir.
    destruct i as [s|s ev]; simpl in Hne.
    + destruct (d !! s); [done|]. by rewrite lookup_insert_ne.
    + destruct (d !! s) as [rooms|] eqn:Hs; [|done].
      destruct ev as [token|arg| | |order|]; try done.
      * destruct (admin_verified env token);
          [by rewrite lookup_alter_ne|by rewrite lookup_delete_ne].
      * destruct (get "token" arg) as [token|m] eqn:Hg.
        -- destruct (lookup_principal env token) as [user|];
             [destruct (truthy user)|];
             by rewrite ?lookup_alter_ne, ?lookup_delete_ne by done.
        -- simpl in Hok. rewrite Hs, unhandled_result in Hok.
           by rewrite (joinUser_rejects env s arg m d Hg) in Hok.
      * by rewrite lookup_delete_ne.
  - intros message Hthrow.
    apply step_throws in Hthrow as (sid & arg & -> & [rooms Hs] & Hg).
    by rewrite step_dir, Hs, Hg.
Qed.

Lemma step_frame_witness :
  let d := run (two_principals ++ [(demo_env, Connect "s2")]) ∅ in
  dir_of (step demo_env (FromClient "s2" (JoinAdmin (JStr "not a token"))) d) !! "s1"
  = d !! "s1"
  ∧ dir_of (step demo_env (FromClient "s2" (JoinUser JUndefined)) d) = ∅.
Proof.
  intros d. split.
  - apply (step_frame demo_env (FromClient "s2" (JoinAdmin (JStr "not a token"))) d).
    + reflexivity.
    + simpl. discriminate.
  - eapply (step_frame demo_env (FromClient "s2" (JoinUser JUndefined)) d).
    reflexivity.
Defined.

(** X8: the only listener whose promise can reject is [joinUser], and it
    does so exactly when the event carries no payload object
    ([undefined] or [null]): every other failure, in every listener, is
    caught and logged. *)
Theorem step_rejects_iff env i (d : gmap string (gset string)) :
  (∃ message, (step env i d).1.1 = Throw message)
  ↔ ∃ sid arg, i = FromClient sid (JoinUser arg)
               ∧ connected d sid ∧ (arg = JUndefined ∨ arg = JNull).
Proof.
  split.
  - intros [message Hthrow]. destruct i as [sid|sid ev]; simpl in Hthrow.
    { unfold connection, log in Hthrow. by destruct (d !! sid). }
    destruct (d !! sid) as [rooms|] eqn:Hs; [|done].
    destruct ev as [token|arg| | |order|]; simpl in Hthrow.
    + by destruct (joinAdmin_run env sid token d) as (es & Hrun & _);
        rewrite Hrun in Hthrow.
    + destruct (get "token" arg) as [token|m] eqn:Hg.
      * by destruct (joinUser_run env sid arg token d Hg) as (es & Hrun & _);
          rewrite Hrun in Hthrow.
      * exists sid, arg. split; [done|]. split; [by exists rooms|].
        by eapply get_throws.
    + done.
    + done.
    + by destruct (orderStatusUpdate_run env order d) as (es & Hrun & _);
        rewrite Hrun in Hthrow.
    + by rewrite disconnect_run in Hthrow.
  - intros (sid & arg & -> & [rooms Hs] & Harg). simpl. rewrite Hs.
    destruct Harg as [-> | ->]; eexists; reflexivity.
Qed.



(** X10: every broadcast of a turn reaches exactly the sessions that
    are in the room it is addressed to, and that room is [adminRoom] or,
    for an order only, a [user_<id>] room.  So a session receives an
    event only through a room it is in: an order for one user's room
    does not reach a session that is only in another's, and a session in
    no room receives nothing. *)
Theorem only_members_receive env i (d : gmap string (gset string))
    room event args to :
  Emit room event args to ∈ effects_of (step env i d) →
  (∀ sid, sid ∈ to ↔ room ∈ rooms_of d sid)
  ∧ (room = "adminRoom"
     ∨ (is_user_room room = true ∧ event = "orderStatusUpdate")).
Proof.
  intros Hin.
  assert (Hem : Emit room event args to ∈ emissions (effects_of (step env i d))).
  { apply elem_of_emissions. split; [done|]. by exists room, event, args, to. }
  destruct (step_emissions env i d) as [Hshape _].
  remember (emissions (effects_of (step env i d))) as es eqn:Hes. clear Hes Hin.
  destruct Hshape as [s ev Hc Hev|s order Hc|i].
  - apply list_elem_of_singleton in Hem. injection Hem as -> _ _ ->.
    split; [intros sid; apply elem_of_members|by left].
  - unfold order_broadcasts in Hem.
    destruct (invalid_order order); [by apply not_elem_of_nil in Hem|].
    destruct (resolve_order env order) as [p|]; [|by apply not_elem_of_nil in Hem].
    apply elem_of_cons in Hem as [Hem|Hem].
    + injection Hem as -> _ _ ->.
      split; [intros sid; apply elem_of_members|by left].
    + destruct (has_owner p); [|by apply not_elem_of_nil in Hem].
      apply list_elem_of_singleton in Hem. injection Hem as -> -> _ ->.
      split; [intros sid; apply elem_of_members|].
      right. split; [apply user_room_is_user_room|done].
  - by apply not_elem_of_nil in Hem.
Qed.

Lemma only_members_receive_witness :
  let d := run [ (demo_env, Connect "bob");
                 (demo_env, FromClient "bob" (JoinUser (JObj [("token", JStr "Bearer tokB")])));
                 (demo_env, Connect "ada");
                 (demo_env, FromClient "ada" (JoinUser (JObj [("token", JStr "Bearer tokA")]))) ] ∅ in
  (∀ sid, sid ∈ ({[ "bob" ]} : gset string) ↔ "user_b2" ∈ rooms_of d sid)
  ∧ ("user_b2" = "adminRoom"
     ∨ (is_user_room "user_b2" = true ∧ "orderStatusUpdate" = "orderStatusUpdate")).
Proof.
  intros d.
  apply (only_members_receive demo_env
           (FromClient "ada" (OrderStatusUpdate
              (JObj [("_id", JStr "o1"); ("user", JObj [("_id", JStr "b2")])]))) d
           "user_b2" "orderStatusUpdate"
           [JObj [("_id", JStr "o1"); ("user", JObj [("_id", JStr "b2")])]]
           {[ "bob" ]}).
  vm_compute. right. left.
Defined.

Lemma settle_production env outcomes targets completion subs :
  production env = true →
  (settle env outcomes targets completion subs).2 = [].
Proof.
  intros Hp. revert subs.
  induction completion as [|i rest IH]; intros subs; simpl; [done|].
  destruct (targets !! i) as [t|]; [|apply IH].
  destruct (outcomes i) as [|kind message]; [apply IH|]. simpl.
  specialize (IH (without (subscription t) subs)).
  destruct (settle _ _ _ _ _) as [subs'' es']. simpl in *. subst es'.
  unfold console. by rewrite Hp.
Qed.

Lemma logs_calls payload (targets : list PushSub) :
  logs ((λ t, SendNotification (subscription t) payload) <$> targets) = [].
Proof. unfold logs. by induction targets as [|t ts IH]. Qed.

(** X11: with [NODE_ENV] set to [production] the server prints nothing:
    no socket turn and no push request produces a console line. *)
Theorem production_is_silent env :
  production env = true →
  (∀ i (d : gmap string (gset string)), logs (effects_of (step env i d)) = [])
  ∧ (∀ r st, logs (push_step env r st).2 = []).
Proof.
  intros Hp. split.
  - intros i d. destruct (step_emissions env i d) as [_ Hes].
    rewrite (Hes Hp). apply logs_emissions.
  - intros [user_id|outcomes completion req] st; simpl.
    + unfold console. by rewrite Hp.
    + unfold push_send. destruct (Nat.eqb _ 0); [done|].
      pose proof (settle_production env outcomes
        (targetSubscriptions (pushSubscriptions st) (b_userId req)) completion
        (pushSubscriptions st) Hp) as Hs.
      destruct (settle _ _ _ _ _) as [subs es]. simpl in *. subst es.
      unfold console. rewrite Hp, !app_nil_r. apply logs_calls.
Qed.

Lemma production_is_silent_witness :
  let env := {| production := true;
                jwt_verify := jwt_verify demo_env;
                User_findById := User_findById demo_env;
                Order_findById := Order_findById demo_env;
                JSON_stringify := JSON_stringify demo_env |} in
  logs (effects_of (step env (FromClient "s1" (JoinAdmin (JStr "Bearer tokA")))
                      (run two_principals ∅))) = [].
Proof.
  intros env.
  destruct (production_is_silent env) as [Hstep _]; [reflexivity|].
  apply Hstep.
Defined.

(** X12: while a session stays connected it never loses a room: a turn
    either disconnects the session or leaves it in every room it was in.
    No listener ever leaves a single room. *)
Theorem rooms_never_shrink env i (d : gmap string (gset string)) sid :
  connected (dir_of (step env i d)) sid →
  rooms_of d sid ⊆ rooms_of (dir_of (step env i d)) sid.
Proof.
  destruct (decide (sender i = sid)) as [Heq|Hne].
  2:{ destruct (step_other env i d sid Hne) as [Hsame|Hdead].
      - intros _. unfold rooms_of. by rewrite Hsame.
      - rewrite Hdead. unfold connected. rewrite lookup_empty. by intros [? ?]. }
  unfold connected, rooms_of. rewrite step_dir.
  destruct i as [s|s ev]; simpl in Heq; subst s.
  - destruct (d !! sid) eqn:Hs; [by rewrite Hs|]. set_solver.
  - destruct (d !! sid) as [rooms|] eqn:Hs; [|by rewrite Hs].
    destruct ev as [token|arg| | |order|]; rewrite ?Hs; try done.
    + destruct (admin_verified env token).
      * rewrite lookup_alter_eq, Hs. simpl. set_solver.
      * rewrite lookup_delete_eq. by intros [? ?].
    + destruct (get "token" arg) as [token|];
        [|rewrite lookup_empty; by intros [? ?]].
      destruct (lookup_principal env token) as [user|];
        [destruct (truthy user)|].
      * rewrite lookup_alter_eq, Hs. simpl. set_solver.
      * rewrite lookup_delete_eq. by intros [? ?].
      * rewrite lookup_delete_eq. by intros [? ?].
    + rewrite lookup_delete_eq. by intros [? ?].
Qed.

Lemma rooms_never_shrink_witness :
  let d := run two_principals ∅ in
  rooms_of d "s1"
  ⊆ rooms_of (dir_of (step demo_env
                (FromClient "s1" (JoinAdmin (JStr "Bearer tokRoot"))) d)) "s1".
Proof.
  intros d.
  apply (rooms_never_shrink demo_env
           (FromClient "s1" (JoinAdmin (JStr "Bearer tokRoot"))) d "s1").
  vm_compute. eexists. reflexivity.
Defined.

(** ** The visitor middleware *)

(** X13: the visitor middleware calls [next] exactly once for every
    request.  A request under [/api/locations] broadcasts nothing; any
    other request sends the latest visitor record, when there is one, to
    the sessions in [adminRoom] and to nobody else; a failing lookup is
    logged and broadcasts nothing. *)
Theorem newVisitor_broadcast env originalUrl latest (d : gmap string (gset string)) :
  (newVisitor env originalUrl latest d).1 = 1
  ∧ ∀ sid event args,
      receives (newVisitor env originalUrl latest d).2 sid event args
      ↔ ∃ visitor,
          String.prefix "/api/locations" originalUrl = false
          ∧ latest = Ok visitor ∧ truthy visitor = true
          ∧ event = "newVisitor" ∧ args = [visitor]
          ∧ "adminRoom" ∈ rooms_of d sid.
Proof.
  unfold newVisitor, receives.
  destruct (String.prefix "/api/locations" originalUrl); simpl.
  { split; [done|]. intros sid event args. split.
    - by intros (room & to & ?%not_elem_of_nil & _).
    - by intros (? & ? & _). }
  split; [done|]. intros sid event args. split.
  - intros (room & to & Hin & Hto).
    destruct latest as [visitor|message].
    + destruct (truthy visitor) eqn:Hv; [|by apply not_elem_of_nil in Hin].
      apply list_elem_of_singleton in Hin. injection Hin as -> -> -> ->.
      exists visitor. split_and!; try done. by apply elem_of_members.
    + unfold console in Hin. destruct (production env).
      * by apply not_elem_of_nil in Hin.
      * by apply list_elem_of_singleton in Hin.
  - intros (visitor & _ & -> & Hv & -> & -> & Hin). rewrite Hv.
    exists "adminRoom", (members d "adminRoom"). split.
    + by apply list_elem_of_singleton.
    + by apply elem_of_members.
Qed.

Lemma newVisitor_broadcast_witness :
  let d := run [(demo_env, Connect "s2");
                (demo_env, FromClient "s2" (JoinAdmin (JStr "Bearer tokRoot")))] ∅ in
  let visitor := JObj [("country", JStr "NG")] in
  receives (newVisitor demo_env "/api/products" (Ok visitor) d).2
    "s2" "newVisitor" [visitor].
Proof.
  intros d visitor.
  apply (newVisitor_broadcast demo_env "/api/products" (Ok visitor) d).
  exists visitor. split_and!; reflexivity.
Defined.

(** ** The service worker *)

Section Substrings.
#[local] Arguments String.append !_ _ / : simpl nomatch.

Lemma prefix_spec (p s : string) :
  String.prefix p s = true ↔ ∃ rest, s = p +:+ rest.
Proof.
  revert s. induction p as [|a p IH]; intros s; simpl.
  - split; [|by destruct s]. intros _. by exists s.
  - destruct s as [|b s]; simpl.
    + split; [done|]. by intros [rest ?].
    + destruct (ascii_dec a b) as [->|Hne].
      * rewrite IH. split; intros [rest Hr]; exists rest; [by rewrite Hr|].
        by injection Hr.
      * split; [done|]. intros [rest Hr]. injection Hr as -> _. done.
Qed.

Lemma includes_unfold (needle s : string) :
  Sw.includes needle s
  = if String.prefix needle s then true
    else match s with
         | EmptyString => false
         | String _ rest => Sw.includes needle rest
         end.
Proof. by destruct s. Qed.

(** [includes] is the substring test. *)
Lemma includes_spec (needle s : string) :
  Sw.includes needle s = true ↔ ∃ before rest, s = before +:+ needle +:+ rest.
Proof.
  induction s as [|c s IH]; rewrite includes_unfold;
    destruct (String.prefix needle _) eqn:Hp.
  - split; [|done]. intros _. apply prefix_spec in Hp as [rest Hr].
    by exists "", rest.
  - split; [done|]. intros (before & rest & Hs).
    destruct before; simpl in Hs; [|done].
    assert (String.prefix needle "" = true) by (apply prefix_spec; eauto).
    congruence.
  - split; [|done]. intros _. apply prefix_spec in Hp as [rest Hr].
    by exists "", rest.
  - rewrite IH. split.
    + intros (before & rest & ->). by exists (String c before), rest.
    + intros (before & rest & Hs). destruct before as [|c' before]; simpl in Hs.
      * assert (String.prefix needle (String c s) = true)
          by (apply prefix_spec; eauto).
        congruence.
      * injection Hs as -> ->. eauto.
Qed.

End Substrings.

Lemma first_orders_window_Some clientsArr k i :
  Sw.first_orders_window clientsArr k = Some i
  ↔ ∃ j client,
      i = k + j ∧ clientsArr !! j = Some client ∧ Sw.shows_orders client = true
      ∧ ∀ j' client', j' < j → clientsArr !! j' = Some client' →
                      Sw.shows_orders client' = false.
Proof.
  revert k. induction clientsArr as [|c rest IH]; intros k; simpl.
  - split; [done|]. by intros (j & client & _ & ? & _).
  - destruct (Sw.shows_orders c) eqn:Hc.
    + split.
      * intros [= <-]. exists 0, c. split_and!; [lia|done|done|]. intros; lia.
      * intros (j & client & -> & Hj & Hs & Hmin). destruct j as [|j]; [f_equal; lia|].
        rewrite (Hmin 0 c) in Hc; [done|lia|done].
    + rewrite IH. split.
      * intros (j & client & -> & Hj & Hs & Hmin). exists (S j), client.
        split_and!; [lia|done|done|].
        intros [|j'] client' Hlt Hl; simpl in Hl; [by injection Hl as <-|].
        apply (Hmin j' client'); [lia|done].
      * intros (j & client & -> & Hj & Hs & Hmin). destruct j as [|j]; simpl in Hj.
        { injection Hj as <-. congruence. }
        exists j, client. split_and!; [lia|done|done|].
        intros j' client' Hlt Hl. apply (Hmin (S j') client'); [lia|done].
Qed.

Lemma first_orders_window_None clientsArr k :
  Sw.first_orders_window clientsArr k = None
  ↔ ∀ client, client ∈ clientsArr → Sw.shows_orders client = false.
Proof.
  revert k. induction clientsArr as [|c rest IH]; intros k; simpl.
  - split; [|done]. by intros _ client ?%not_elem_of_nil.
  - destruct (Sw.shows_orders c) eqn:Hc.
    + split; [done|]. intros Hall. rewrite (Hall c) in Hc; [done|by left].
    + rewrite IH. split.
      * intros Hall client [->|?]%elem_of_cons; auto.
      * intros Hall client ?. apply Hall. by right.
Qed.

(** X14: a click on a notification closes it first; then the first
    window that shows [orders.html] and can be focused gets the focus,
    whatever address the notification carries; a window is opened only
    when there is no such window, and then at the notification's address,
    or at [/orders.html] if that is empty. *)
Theorem notificationclick_focus_or_open data_url clientsArr openWindow :
  let es := Sw.on_notificationclick data_url clientsArr openWindow in
  hd_error es = Some Sw.CloseNotification
  ∧ (∀ i, Sw.Focus i ∈ es
          ↔ (∃ client, clientsArr !! i = Some client ∧ Sw.shows_orders client = true)
            ∧ ∀ j client, j < i → clientsArr !! j = Some client →
                          Sw.shows_orders client = false)
  ∧ (∀ target, Sw.OpenWindow target ∈ es
          ↔ openWindow = true
            ∧ target = Sw.js_or data_url (JStr "/orders.html")
            ∧ ∀ client, client ∈ clientsArr → Sw.shows_orders client = false).
Proof.
  unfold Sw.on_notificationclick. simpl. split; [done|].
  destruct (Sw.first_orders_window clientsArr 0) as [i0|] eqn:Hf.
  - pose proof Hf as Hsome.
    apply first_orders_window_Some in Hsome as (j & c & Hi & Hj & Hs & Hmin).
    simpl in Hi. subst j. split.
    + intros i. rewrite elem_of_cons, list_elem_of_singleton. split.
      * intros [?|[= ->]]; [done|]. eauto.
      * intros [(client & Hl & Hc) Hless]. right. f_equal.
        destruct (Nat.lt_trichotomy i i0) as [Hlt|[->|Hgt]]; [|done|].
        -- rewrite (Hmin i client Hlt Hl) in Hc. done.
        -- rewrite (Hless i0 c Hgt Hj) in Hs. done.
    + intros target. rewrite elem_of_cons, list_elem_of_singleton. split.
      * by intros [?|?].
      * intros (_ & _ & Hall). rewrite (Hall c) in Hs; [done|].
        by eapply list_elem_of_lookup_2.
  - pose proof Hf as Hnone. rewrite first_orders_window_None in Hnone. split.
    + intros i. split.
      * destruct openWindow; rewrite elem_of_cons;
          intros [?|Hin]; try done.
        -- by apply list_elem_of_singleton in Hin.
        -- by apply not_elem_of_nil in Hin.
      * intros [(client & Hl & Hc) _].
        rewrite (Hnone client) in Hc; [done|]. by eapply list_elem_of_lookup_2.
    + intros target. destruct openWindow; rewrite elem_of_cons.
      * rewrite list_elem_of_singleton. split.
        -- intros [?|[= ->]]; [done|]. done.
        -- intros (_ & -> & _). by right.
      * split.
        -- intros [?|?%not_elem_of_nil]; done.
        -- by intros [? _].
Qed.

Lemma notificationclick_focus_or_open_witness :
  let clientsArr :=
    [ {| Sw.client_url := "https://shop.example/index.html"; Sw.focusable := true |};
      {| Sw.client_url := "https://shop.example/orders.html?id=7"; Sw.focusable := true |};
      {| Sw.client_url := "https://shop.example/orders.html"; Sw.focusable := true |} ] in
  Sw.Focus 1 ∈ Sw.on_notificationclick (JStr "/products.html") clientsArr true.
Proof.
  intros clientsArr.
  apply (notificationclick_focus_or_open (JStr "/products.html") clientsArr true).
  split.
  - eexists. split; reflexivity.
  - intros [|[|j]] client Hlt Hl; [|lia|lia].
    injection Hl as <-. reflexivity.
Defined.

(** X15: the fetch listener writes to a cache in one case only: an API
    request ([/api/public/...]) that the network answered with an [ok]
    response, stored in the dynamic cache under the request's address.
    Error responses, static assets and offline fallbacks are never
    stored. *)
Theorem fetch_cache_writes stringify request network cached index cache key r :
  Sw.CachePut cache key r ∈ (Sw.on_fetch stringify request network cached index).2
  ↔ String.prefix "/api/public/" (Sw.pathname request) = true
    ∧ network = Ok r ∧ Sw.ok r = true
    ∧ cache = Sw.DYNAMIC_CACHE_NAME ∧ key = Sw.url request.
Proof.
  unfold Sw.on_fetch.
  destruct (String.prefix "/api/public/" (Sw.pathname request)).
  - destruct network as [n|message]; simpl.
    + rewrite elem_of_cons. destruct (Sw.ok n) eqn:Hok.
      * rewrite list_elem_of_singleton. split.
        -- intros [?|[= -> -> ->]]; done.
        -- intros (_ & [= ->] & _ & -> & ->). by right.
      * split.
        -- intros [?|?%not_elem_of_nil]; done.
        -- intros (_ & [= ->] & ? & _). congruence.
    + rewrite !elem_of_cons. split.
      * intros [?|[?|?%not_elem_of_nil]]; done.
      * by intros (_ & ? & _).
  - split; [|by intros [? _]].
    destruct cached as [c|]; [|destruct network as [n|message];
      [|destruct (String.eqb (Sw.mode request) "navigate")]]; simpl;
      rewrite ?elem_of_cons; intros Hin;
      repeat (destruct Hin as [Hin|Hin]; [done|]);
      try (by apply not_elem_of_nil in Hin);
      rewrite ?elem_of_cons in Hin;
      repeat (destruct Hin as [Hin|Hin]; [done|]);
      by apply not_elem_of_nil in Hin.
Qed.

(** X16: [respondWith] receives no response in exactly one situation: a
    request that is no API request, is not cached and cannot be
    fetched, and that either is no navigation or finds no cached
    [/index.html].  API requests always get a response. *)
Theorem fetch_unanswered_iff stringify request network cached index :
  (Sw.on_fetch stringify request network cached index).1 = None
  ↔ String.prefix "/api/public/" (Sw.pathname request) = false
    ∧ cached = None
    ∧ (∃ message, network = Throw message)
    ∧ (String.eqb (Sw.mode request) "navigate" = true → index = None).
Proof.
  unfold Sw.on_fetch.
  destruct (String.prefix "/api/public/" (Sw.pathname request)).
  - destruct network; simpl; (split; [done|by intros [? _]]).
  - destruct cached as [c|]; simpl.
    { split; [done|]. by intros (_ & ? & _). }
    destruct network as [n|message]; simpl.
    { split; [done|]. by intros (_ & _ & [? ?] & _). }
    destruct (String.eqb (Sw.mode request) "navigate"); simpl.
    + split; [intros ->; split_and!; eauto|]. intros (_ & _ & _ & Hi). by apply Hi.
    + split; [|done]. intros _. split_and!; eauto; done.
Qed.

(** X17: an API request is served network first.  Whenever the network
    answers, that answer is returned, whatever the caches hold and
    whatever its status, and no cache is consulted; only when the
    network fails does the cached copy come back, and in its absence a
    made-up 503 response. *)
Theorem api_request_network_first stringify request network cached index :
  String.prefix "/api/public/" (Sw.pathname request) = true →
  let r := Sw.on_fetch stringify request network cached index in
  match network with
  | Ok networkResponse =>
      r.1 = Some networkResponse ∧ ∀ key, Sw.CachesMatch key ∉ r.2
  | Throw _ =>
      r.1 = Some (default (Sw.offline_response stringify) cached)
      ∧ Sw.status (Sw.offline_response stringify) = 503
  end.
Proof.
  intros Hapi. unfold Sw.on_fetch. rewrite Hapi.
  destruct network as [n|message]; simpl.
  - split; [done|]. intros key. rewrite elem_of_cons.
    intros [?|Hin]; [done|].
    destruct (Sw.ok n); [by apply list_elem_of_singleton in Hin
                        |by apply not_elem_of_nil in Hin].
  - by destruct cached.
Qed.

Lemma api_request_network_first_witness :
  let request := {| Sw.url := "https://shop.example/api/public/products";
                    Sw.pathname := "/api/public/products";
                    Sw.mode := "cors" |} in
  let stale := {| Sw.status := 200; Sw.statusText := "OK"; Sw.headers := [];
                  Sw.body := "[old]" |} in
  let fresh := {| Sw.status := 500; Sw.statusText := "Internal Server Error";
                  Sw.headers := []; Sw.body := "oops" |} in
  let r := Sw.on_fetch to_string request (Ok fresh) (Some stale) None in
  r.1 = Some fresh ∧ ∀ key, Sw.CachesMatch key ∉ r.2.
Proof.
  intros request stale fresh.
  apply (api_request_network_first to_string request (Ok fresh) (Some stale) None).
  reflexivity.
Defined.

(** X18: any other request is served cache first.  A cached response is
    returned without a call to [fetch], so it is served offline as well
    as online; the network is asked only on a cache miss. *)
Theorem static_request_cache_first stringify request network cached index :
  String.prefix "/api/public/" (Sw.pathname request) = false →
  let r := Sw.on_fetch stringify request network cached index in
  (∀ response, cached = Some response → r.1 = Some response)
  ∧ (∀ target, Sw.Fetch target ∈ r.2 ↔ cached = None ∧ target = Sw.url request).
Proof.
  intros Hapi. unfold Sw.on_fetch. rewrite Hapi. split.
  - by intros response ->.
  - intros target. destruct cached as [c|]; simpl.
    { rewrite list_elem_of_singleton. split; [done|by intros [? _]]. }
    destruct network as [n|message];
      [|destruct (String.eqb (Sw.mode request) "navigate")]; simpl;
      rewrite !elem_of_cons; (split;
        [intros [?|[[= ->]|Hin]]; try done;
         try (by apply not_elem_of_nil in Hin);
         rewrite ?elem_of_cons in Hin;
         try (destruct Hin as [?|Hin]; [done|by apply not_elem_of_nil in Hin])
        |intros [_ ->]; auto]).
Qed.

Lemma static_request_cache_first_witness :
  let request := {| Sw.url := "https://shop.example/static/logo.png";
                    Sw.pathname := "/static/logo.png";
                    Sw.mode := "no-cors" |} in
  let logo := {| Sw.status := 200; Sw.statusText := "OK"; Sw.headers := [];
                 Sw.body := "png" |} in
  let r := Sw.on_fetch to_string request (Throw "Failed to fetch") (Some logo) None in
  (∀ response, Some logo = Some response → r.1 = Some response)
  ∧ (∀ target, Sw.Fetch target ∈ r.2
               ↔ Some logo = None ∧ target = Sw.url request).
Proof.
  intros request logo.
  apply (static_request_cache_first to_string request (Throw "Failed to fetch")
           (Some logo) None).
  reflexivity.
Defined.

(** X19: the push listener ends with an exception, and shows nothing,
    exactly when the message has data that is not JSON or whose JSON
    value is [null]; a message without data, and every other payload,
    produces a notification. *)
Theorem push_throws_iff event_data :
  (∃ message, Sw.on_push event_data = Throw message)
  ↔ (∃ message, event_data = Some (Throw message))
    ∨ event_data = Some (Ok JNull) ∨ event_data = Some (Ok JUndefined).
Proof.
  unfold Sw.on_push. destruct event_data as [[data|m]|]; simpl.
  - destruct data; simpl; split;
      try (intros [m Hm]; try discriminate Hm; auto; fail);
      try (intros [[m Hm]|[Hm|Hm]]; try discriminate Hm; eauto; fail).
  - split; intros _; eauto.
  - split; [intros [m Hm]; discriminate Hm|].
    intros [[m Hm]|[Hm|Hm]]; discriminate Hm.
Qed.

(** X20: the address a notification carries is never empty: it is the
    [url] of the payload when that is truthy and [/orders.html]
    otherwise, also when the payload is no object at all. *)
Theorem push_notification_url event_data title body data_url :
  Sw.on_push event_data = Ok (Sw.ShowNotification title body data_url) →
  truthy data_url = true
  ∧ ∃ data,
      (event_data = None ∧ data = Sw.default_data ∨ event_data = Some (Ok data))
      ∧ title = prop "title" data ∧ body = prop "body" data
      ∧ data_url = if truthy (prop "url" data) then prop "url" data
                   else JStr "/orders.html".
Proof.
  unfold Sw.on_push.
  destruct event_data as [[data|m]|]; simpl; [|done|].
  - destruct (get "body" data) as [b|m] eqn:Hb; [|done].
    intros [= <- <- <-]. unfold Sw.js_or. split.
    + by destruct (truthy (prop "url" data)) eqn:Hu.
    + exists data. split_and!; auto.
      unfold get in Hb. destruct data; try discriminate Hb; by injection Hb.
  - intros [= <- <- <-]. split; [done|]. exists Sw.default_data. auto.
Qed.

Lemma push_notification_url_witness :
  let payload := JObj [("title", JStr "Shipped"); ("body", JStr "Your order shipped");
                       ("url", JStr "")] in
  truthy (JStr "/orders.html") = true
  ∧ ∃ data,
      (Some (Ok payload) = None ∧ data = Sw.default_data
       ∨ Some (Ok payload) = Some (Ok data))
      ∧ JStr "Shipped" = prop "title" data
      ∧ JStr "Your order shipped" = prop "body" data
      ∧ JStr "/orders.html" = if truthy (prop "url" data) then prop "url" data
                              else JStr "/orders.html".
Proof.
  intros payload.
  apply (push_notification_url (Some (Ok payload)) (JStr "Shipped")
           (JStr "Your order shipped") (JStr "/orders.html")).
  reflexivity.
Defined.

(** X21: from push to click.  When no window shows [orders.html], a
    click on a notification the push listener has shown closes it and
    opens a window at exactly the address the notification carries: the
    default of the click listener never applies to it. *)
Theorem push_then_click_opens event_data title body data_url clientsArr :
  Sw.on_push event_data = Ok (Sw.ShowNotification title body data_url) →
  (∀ client, client ∈ clientsArr → Sw.shows_orders client = false) →
  Sw.on_notificationclick data_url clientsArr true
  = [Sw.CloseNotification; Sw.OpenWindow data_url].
Proof.
  intros Hpush Hnone.
  assert (Hu : truthy data_url = true).
  { unfold Sw.on_push in Hpush.
    destruct (match event_data with None => _ | Some p => p end) as [data|m]; [|done].
    destruct (get "body" data); [|done]. injection Hpush as _ _ <-.
    unfold Sw.js_or. by destruct (truthy (prop "url" data)) eqn:Hd. }
  unfold Sw.on_notificationclick, Sw.js_or. rewrite Hu.
  apply (first_orders_window_None clientsArr 0) in Hnone. by rewrite Hnone.
Qed.

Lemma push_then_click_opens_witness :
  let clientsArr :=
    [ {| Sw.client_url := "https://shop.example/index.html"; Sw.focusable := true |} ] in
  Sw.on_notificationclick (JStr "/orders.html") clientsArr true
  = [Sw.CloseNotification; Sw.OpenWindow (JStr "/orders.html")].
Proof.
  intros clientsArr.
  apply (push_then_click_opens None (JStr "10kVendor") (JStr "New update available!")
           (JStr "/orders.html") clientsArr).
  - reflexivity.
  - intros client ->%list_elem_of_singleton. reflexivity.
Defined.

Lemma caches_after_deletes (cacheNames doomed : list string) :
  Sw.caches_after cacheNames (Sw.CacheDelete <$> doomed)
  = List.filter (λ n, negb (bool_decide (n ∈ doomed))) cacheNames.
Proof.
  unfold Sw.caches_after. revert cacheNames.
  induction doomed as [|x doomed IH]; intros cacheNames; simpl.
  - induction cacheNames as [|n ns IHn]; simpl; [done|]. by rewrite <- IHn.
  - rewrite IH. clear IH.
    induction cacheNames as [|n ns IHn]; simpl; [done|].
    destruct (String.eqb n x) eqn:Hnx; simpl.
    + apply String.eqb_eq in Hnx as ->.
      rewrite (bool_decide_eq_true_2 (x ∈ x :: doomed)) by left. simpl. exact IHn.
    + apply String.eqb_neq in Hnx.
      destruct (bool_decide (n ∈ doomed)) eqn:Hd.
      * apply bool_decide_eq_true_1 in Hd.
        rewrite (bool_decide_eq_true_2 (n ∈ x :: doomed)) by (by right). simpl.
        exact IHn.
      * apply bool_decide_eq_false_1 in Hd.
        rewrite (bool_decide_eq_false_2 (n ∈ x :: doomed)).
        -- simpl. by rewrite IHn.
        -- intros [?|?]%elem_of_cons; done.
Qed.

(** X22: activation purges exactly the stale caches: once the deletions
    it starts are done, the caches left are those named like the two
    current ones, in the order they were listed; a second activation
    deletes nothing. *)
Theorem activate_keeps_current cacheNames :
  let left := Sw.caches_after cacheNames (Sw.on_activate cacheNames) in
  left = List.filter (λ n, String.eqb n Sw.CACHE_NAME
                           || String.eqb n Sw.DYNAMIC_CACHE_NAME) cacheNames
  ∧ Sw.on_activate left = [Sw.ClientsClaim].
Proof.
  assert (Hleft : Sw.caches_after cacheNames (Sw.on_activate cacheNames)
                  = List.filter (λ n, negb (Sw.stale n)) cacheNames).
  { unfold Sw.on_activate.
    change (Sw.caches_after cacheNames (Sw.ClientsClaim :: ?l))
      with (Sw.caches_after cacheNames l).
    rewrite caches_after_deletes. apply filter_ext_in. intros n Hn. f_equal.
    destruct (Sw.stale n) eqn:Hs.
    - apply bool_decide_eq_true_2, list_elem_of_In, filter_In. done.
    - apply bool_decide_eq_false_2. intros [_ ?]%list_elem_of_In%filter_In.
      congruence. }
  cbv zeta. rewrite Hleft. split.
  - apply filter_ext. intros n. unfold Sw.stale.
    by destruct (String.eqb n Sw.CACHE_NAME), (String.eqb n Sw.DYNAMIC_CACHE_NAME).
  - unfold Sw.on_activate.
    assert (Hnone : List.filter Sw.stale
                      (List.filter (λ n, negb (Sw.stale n)) cacheNames) = []).
    { clear Hleft. induction cacheNames as [|n ns IH]; [done|]. cbn [List.filter].
      destruct (Sw.stale n) eqn:Hs; cbn [negb List.filter]; [exact IH|].
      rewrite Hs. exact IH. }
    by rewrite Hnone.
Qed.

Lemma elem_of_optional_fetch network target e :
  e ∈ Sw.optional_fetch network target
  ↔ e = Sw.Fetch target
    ∨ (∃ r, network target = Ok r ∧ Sw.ok r = true
            ∧ e = Sw.CachePut Sw.CACHE_NAME target r)
    ∨ (∃ r, network target = Ok r ∧ Sw.ok r = false
            ∧ e = Sw.ConsoleWarn ("Optional resource failed: " +:+ target))
    ∨ (∃ m, network target = Throw m
            ∧ e = Sw.ConsoleWarn ("Failed to cache optional: " +:+ target)).
Proof.
  unfold Sw.optional_fetch. rewrite elem_of_cons.
  destruct (network target) as [r|m]; [destruct (Sw.ok r) eqn:Hok|];
    rewrite list_elem_of_singleton; split;
    try (intros [->| ->]; eauto 10);
    intros [?|[(? & [= <-] & ? & ?)|[(? & [= <-] & ? & ?)|(? & ? & ?)]]];
    auto; congruence.
Qed.

Lemma elem_of_optional_fetches network urls e :
  e ∈ flat_map (Sw.optional_fetch network) urls
  ↔ ∃ target, target ∈ urls ∧ e ∈ Sw.optional_fetch network target.
Proof.
  rewrite list_elem_of_In, in_flat_map.
  split; intros (target & Hin & He); exists target;
    by rewrite ?list_elem_of_In in *.
Qed.

(** X23: installation succeeds or fails with the caching of the core
    files alone.  When that fails nothing else is fetched or stored;
    when it succeeds every optional resource is fetched, and stored in
    the static cache exactly when its response is [ok]: no failure of an
    optional resource fails the installation. *)
Theorem install_depends_on_core_only addAll network :
  let r := Sw.on_install addAll network in
  (∀ message, r.1 = Throw message ↔ addAll = Throw message)
  ∧ (∀ target, Sw.Fetch target ∈ r.2
               ↔ r.1 = Ok tt ∧ target ∈ Sw.optionalUrlsToCache)
  ∧ (∀ cache key response, Sw.CachePut cache key response ∈ r.2
               ↔ r.1 = Ok tt ∧ cache = Sw.CACHE_NAME
                 ∧ key ∈ Sw.optionalUrlsToCache
                 ∧ network key = Ok response ∧ Sw.ok response = true).
Proof.
  unfold Sw.on_install. cbv zeta.
  destruct addAll as [[]|m]; cbn [fst snd].
  - split; [by intros message|]. split.
    + intros target. rewrite elem_of_app, elem_of_optional_fetches. split.
      * intros [Hin|(u & Hu & Hin)].
        { repeat (apply elem_of_cons in Hin as [?|Hin]; [done|]).
          by apply not_elem_of_nil in Hin. }
        apply elem_of_optional_fetch in Hin
          as [[= ->]|[(? & _ & _ & ?)|[(? & _ & _ & ?)|(? & _ & ?)]]]; done.
      * intros [_ Hin]. right. exists target. split; [done|].
        apply elem_of_optional_fetch. by left.
    + intros cache key response.
      rewrite elem_of_app, elem_of_optional_fetches. split.
      * intros [Hin|(u & Hu & Hin)].
        { repeat (apply elem_of_cons in Hin as [?|Hin]; [done|]).
          by apply not_elem_of_nil in Hin. }
        apply elem_of_optional_fetch in Hin
          as [?|[(r & Hn & Hok & [= -> -> ->])|[(? & _ & _ & ?)|(? & _ & ?)]]];
          done.
      * intros (_ & -> & Hin & Hn & Hok). right. exists key. split; [done|].
        apply elem_of_optional_fetch. right. left. eauto.
  - split; [intros message; split; congruence|]. split.
    + intros target. split; [|by intros [? _]]. intros Hin.
      repeat (apply elem_of_cons in Hin as [?|Hin]; [done|]).
      by apply not_elem_of_nil in Hin.
    + intros cache key response. split; [|by intros [? _]]. intros Hin.
      repeat (apply elem_of_cons in Hin as [?|Hin]; [done|]).
      by apply not_elem_of_nil in Hin.
Qed.

(** ** Credentials and joins *)

Section Bearer.
#[local] Arguments String.append !_ _ / : simpl nomatch.

Lemma replace_first_unfold (pat rep s : string) :
  replace_first pat rep s
  = if String.prefix pat s
    then rep +:+ String.substring (String.length pat)
                   (String.length s - String.length pat) s
    else match s with
         | EmptyString => EmptyString
         | String c s' => String c (replace_first pat rep s')
         end.
Proof. by destruct s. Qed.

Lemma substring_all (s : string) : String.substring 0 (String.length s) s = s.
Proof. induction s as [|c s IH]; simpl; [done|]. by rewrite IH. Qed.

Lemma substring_after (pat rest : string) :
  String.substring (String.length pat)
    (String.length (pat +:+ rest) - String.length pat) (pat +:+ rest) = rest.
Proof.
  induction pat as [|c pat IH]; simpl.
  - rewrite Nat.sub_0_r. apply substring_all.
  - exact IH.
Qed.

(** [replace] takes a leading pattern away. *)
Lemma replace_first_leading (pat rest : string) :
  replace_first pat "" (pat +:+ rest) = rest.
Proof.
  rewrite replace_first_unfold.
  assert (Hp : String.prefix pat (pat +:+ rest) = true)
    by (apply prefix_spec; eauto).
  rewrite Hp. simpl. apply substring_after.
Qed.

(** [replace] leaves a string without the pattern alone. *)
Lemma replace_first_absent (pat rep s : string) :
  Sw.includes pat s = false → replace_first pat rep s = s.
Proof.
  induction s as [|c s IH]; rewrite includes_unfold, replace_first_unfold;
    destruct (String.prefix pat _); try done.
  intros Hs. by rewrite IH.
Qed.

End Bearer.

Lemma joinAdmin_by_principal env env' sid token token' (d : gmap string (gset string)) :
  production env = production env' →
  lookup_principal env token = lookup_principal env' token' →
  joinAdmin env sid token d = joinAdmin env' sid token' d.
Proof.
  intros Hp Hl. unfold joinAdmin. unfold_M. rewrite Hl.
  unfold disconnect, on_disconnect, log, console, join. by rewrite Hp.
Qed.

Lemma joinUser_by_principal env sid arg arg' token token'
    (d : gmap string (gset string)) :
  get "token" arg = Ok token → get "token" arg' = Ok token' →
  lookup_principal env token = lookup_principal env token' →
  joinUser env sid arg d = joinUser env sid arg' d.
Proof.
  intros Hg Hg' Hl. unfold joinUser. unfold_M. by rewrite Hg, Hg', Hl.
Qed.

(** X24: the [Bearer ] prefix of a credential is optional.  A token
    that does not itself contain [Bearer ] is treated the same with and
    without the prefix, in [joinAdmin] and in [joinUser]: same directory,
    same effects. *)
Theorem bearer_prefix_optional env sid t (d : gmap string (gset string)) :
  Sw.includes "Bearer " t = false →
  step env (FromClient sid (JoinAdmin (JStr ("Bearer " +:+ t)))) d
  = step env (FromClient sid (JoinAdmin (JStr t))) d
  ∧ step env (FromClient sid (JoinUser (JObj [("token", JStr ("Bearer " +:+ t))]))) d
    = step env (FromClient sid (JoinUser (JObj [("token", JStr t)]))) d.
Proof.
  intros Habsent.
  assert (Hl : lookup_principal env (JStr ("Bearer " +:+ t))
               = lookup_principal env (JStr t)).
  { unfold lookup_principal, token_replace.
    by rewrite replace_first_leading, (replace_first_absent _ _ t Habsent). }
  simpl. destruct (d !! sid); [|done]. split; f_equal.
  - by apply joinAdmin_by_principal.
  - by eapply joinUser_by_principal.
Qed.

Lemma bearer_prefix_optional_witness :
  let d := run [(demo_env, Connect "s1")] ∅ in
  step demo_env (FromClient "s1" (JoinAdmin (JStr ("Bearer " +:+ "tokRoot")))) d
  = step demo_env (FromClient "s1" (JoinAdmin (JStr "tokRoot"))) d
  ∧ step demo_env
      (FromClient "s1" (JoinUser (JObj [("token", JStr ("Bearer " +:+ "tokRoot"))]))) d
    = step demo_env (FromClient "s1" (JoinUser (JObj [("token", JStr "tokRoot")]))) d.
Proof.
  intros d. apply (bearer_prefix_optional demo_env "s1" "tokRoot" d). reflexivity.
Defined.

(** X25: a join that verifies adds exactly its room.  After a verified
    [joinAdmin] the rooms of the session are the old ones and
    [adminRoom]; after a verified [joinUser] they are the old ones and
    the user's room; the session stays connected, and sending the same
    join again changes nothing. *)
Theorem verified_join_adds_room env (d : gmap string (gset string)) sid ev room :
  connected d sid →
  (∃ token user, ev = JoinAdmin token ∧ lookup_principal env token = Ok user
                 ∧ truthy user = true ∧ truthy (prop "isAdmin" user) = true
                 ∧ room = "adminRoom")
  ∨ (∃ arg token user, ev = JoinUser arg ∧ get "token" arg = Ok token
                       ∧ lookup_principal env token = Ok user
                       ∧ truthy user = true ∧ room = user_room user) →
  let d' := dir_of (step env (FromClient sid ev) d) in
  connected d' sid
  ∧ rooms_of d' sid = {[ room ]} ∪ rooms_of d sid
  ∧ dir_of (step env (FromClient sid ev) d') = d'.
Proof.
  intros [rooms Hs] Hev.
  assert (Hd : dir_of (step env (FromClient sid ev) d)
               = alter (λ rooms, {[ room ]} ∪ rooms) sid d
             ∧ ∀ d0 : gmap string (gset string), is_Some (d0 !! sid) →
                 dir_of (step env (FromClient sid ev) d0)
                 = alter (λ rooms, {[ room ]} ∪ rooms) sid d0).
  { assert (∀ d0 : gmap string (gset string), is_Some (d0 !! sid) →
              dir_of (step env (FromClient sid ev) d0)
              = alter (λ rooms, {[ room ]} ∪ rooms) sid d0) as Hall.
    { intros d0 [rooms0 Hs0]. rewrite step_dir, Hs0.
      destruct Hev as [(token & user & -> & Hl & Hu & Ha & ->)
                      |(arg & token & user & -> & Hg & Hl & Hu & ->)].
      - unfold admin_verified. by rewrite Hl, Hu, Ha.
      - by rewrite Hg, Hl, Hu. }
    split; [apply Hall; eauto|exact Hall]. }
  destruct Hd as [Hd Hall]. cbv zeta. rewrite Hd.
  assert (Hs' : alter (λ rooms, {[ room ]} ∪ rooms) sid d !! sid
                = Some ({[ room ]} ∪ rooms))
    by (by rewrite lookup_alter_eq, Hs).
  split_and!.
  - by eexists.
  - unfold rooms_of. by rewrite Hs', Hs.
  - rewrite Hall by (by eexists). apply map_eq. intros s.
    destruct (decide (sid = s)) as [<-|Hne].
    + rewrite lookup_alter_eq, Hs'. simpl. f_equal. set_solver.
    + by rewrite lookup_alter_ne.
Qed.

Lemma verified_join_adds_room_witness :
  let d := run two_principals ∅ in
  let d' := dir_of (step demo_env
              (FromClient "s1" (JoinAdmin (JStr "Bearer tokRoot"))) d) in
  connected d' "s1"
  ∧ rooms_of d' "s1" = {[ "adminRoom" ]} ∪ rooms_of d "s1"
  ∧ dir_of (step demo_env (FromClient "s1" (JoinAdmin (JStr "Bearer tokRoot"))) d') = d'.
Proof.
  intros d.
  apply (verified_join_adds_room demo_env d "s1" (JoinAdmin (JStr "Bearer tokRoot"))
           "adminRoom").
  - vm_compute. eexists. reflexivity.
  - left. exists (JStr "Bearer tokRoot"), (demo_user "r0" "Root" true).
    split_and!; reflexivity.
Defined.
